(** * pyodesys example notebooks: a shallow embedding

    The repository's sources are two notebooks,
    [examples/transformations.ipynb] and
    [examples/van_der_pol_interpolation.ipynb].  Their cells define three
    right-hand-side callbacks ([f], [f2], [vdp1]), the helper [rmsd] and two
    driver functions ([integrate_and_plot], [solve_and_plot]); everything
    else is a call into the ODE package, numpy, sympy or matplotlib.

    The callbacks are embedded as functions over an abstract number type
    (the package calls them with floats or with sympy symbols).  What holds
    of them by algebra is stated for exact arithmetic only, and shown to
    fail for floats where it does; the drivers
    and the cells are embedded in a state-and-exception monad in which every
    call that leaves the notebook is answered by an arbitrary library. *)

From Stdlib Require Import PrimFloat.
From Stdlib Require Import ZArith QArith Reals Lra Lia Ring List.
From stdpp Require Import gmap strings list.

(** ** Exceptions and results *)

Inductive exn : Type :=
| IndexError
| KeyError (key : string)
| TypeError
| ValueError
| AttributeError
| LibraryError (tag : string).

Inductive res (X : Type) : Type :=
| Ok (x : X)
| Raise (e : exn).
Arguments Ok {X} x.
Arguments Raise {X} e.

#[export] Instance res_ret : MRet res := fun _ x => Ok x.
#[export] Instance res_bind : MBind res := fun _ _ k m =>
  match m with
  | Ok x => k x
  | Raise e => Raise e
  end.
#[export] Instance res_fmap : FMap res := fun _ _ g m =>
  match m with
  | Ok x => Ok (g x)
  | Raise e => Raise e
  end.

(** ** Numbers as the callbacks see them

    The callbacks only use [+], [-], [*], unary minus, [** 2] and, in [f2],
    [sp.exp].  Python evaluates the operands left to right and stops at the
    first exception. *)

Class Num (A : Type) : Type := {
  zero : A;
  one : A;
  add : A -> A -> A;
  mul : A -> A -> A;
  sub : A -> A -> A;
  neg : A -> A
}.

(** Exact arithmetic: the numbers form a commutative ring.  Python's ints
    and Fractions do, and so do sympy expressions up to simplification;
    floats do not (see [float_Num]). *)
Class NumLaws (A : Type) `{Num A} : Prop :=
  num_ring : ring_theory zero one add mul sub neg eq.

Class HasExp (A : Type) : Type := sp_exp : A -> A.

#[export] Instance Z_Num : Num Z :=
  {| zero := 0%Z; one := 1%Z; add := Z.add; mul := Z.mul; sub := Z.sub; neg := Z.opp |}.
#[export] Instance Z_NumLaws : NumLaws Z := Zth.

#[export] Instance R_Num : Num R :=
  {| zero := 0%R; one := 1%R; add := Rplus; mul := Rmult; sub := Rminus; neg := Ropp |}.
#[export] Instance R_NumLaws : NumLaws R := RTheory.
#[export] Instance R_HasExp : HasExp R := exp.

(** Python's [float]: binary64 with rounding to nearest, the kernel's
    primitive floats.  These are the numbers an integrator hands to a
    callback of [OdeSys].  They are a [Num] without [NumLaws]: their
    addition is not associative. *)
#[export] Instance float_Num : Num float :=
  {| zero := 0%float; one := 1%float; add := PrimFloat.add; mul := PrimFloat.mul;
     sub := PrimFloat.sub; neg := PrimFloat.opp |}.

(** [l[i]] for a literal index [i >= 0]. *)
Definition getitem {X : Type} (l : list X) (i : nat) : res X :=
  match l !! i with
  | Some x => Ok x
  | None => Raise IndexError
  end.

Definition lift1 {X Y : Type} (op : X -> Y) (a : res X) : res Y :=
  x ← a; Ok (op x).

Definition lift2 {X Y W : Type} (op : X -> Y -> W) (a : res X) (b : res Y) : res W :=
  x ← a; y ← b; Ok (op x y).

(** [a ** n] for a literal exponent [n]. *)
Fixpoint power {A : Type} `{Num A} (a : A) (n : nat) : A :=
  match n with
  | O => one
  | S O => a
  | S m => mul a (power a m)
  end.

(** Python's [sum]: a left fold starting from 0. *)
Definition total {A : Type} `{Num A} (l : list A) : A := foldl add zero l.

Declare Scope py_scope.
Delimit Scope py_scope with py.
Notation "l .[ i ]" := (getitem l i) (at level 1, left associativity, format "l .[ i ]") : py_scope.
Notation "a * b" := (lift2 mul a b) : py_scope.
Notation "a + b" := (lift2 add a b) : py_scope.
Notation "a - b" := (lift2 sub a b) : py_scope.
Notation "- a" := (lift1 neg a) : py_scope.
Notation "a ^2" := (lift1 (fun v => power v 2) a) (at level 1, format "a ^2") : py_scope.

Section Callbacks.
Context {A : Type} `{Num A}.

(** transformations.ipynb:
    [f = lambda t, x, k: [-k[0]*x[0], k[0]*x[0] - k[1]*x[1],
                          k[1]*x[1] - k[2]*x[2], k[2]*x[2] - k[3]*x[3]]] *)
Definition f (t : A) (x k : list A) : res (list A) :=
  (e0 ← - k.[0] * x.[0];
   e1 ← k.[0] * x.[0] - k.[1] * x.[1];
   e2 ← k.[1] * x.[1] - k.[2] * x.[2];
   e3 ← k.[2] * x.[2] - k.[3] * x.[3];
   Ok [e0; e1; e2; e3])%py.

(** van_der_pol_interpolation.ipynb:
    [vdp1 = lambda x, y, p: [y[1], -y[0] + p[0]*y[1]*(1 - y[0]**2)]] *)
Definition vdp1 (x : A) (y p : list A) : res (list A) :=
  (e0 ← y.[1];
   e1 ← - y.[0] + p.[0] * y.[1] * (Ok one - (y.[0])^2);
   Ok [e0; e1])%py.

(** transformations.ipynb:
<<
    def f2(t, x, p):
        y0 = p[0]*sp.exp(-p[1]*t)
        return [p[1]*y0 - p[2]*x[0]] + [
            p[i+2]*x[i] - p[i+3]*x[i+1] for i in range(len(x) - 1)
        ]
>> *)
Definition f2 `{HasExp A} (t : A) (x p : list A) : res (list A) :=
  (y0 ← p.[0] * lift1 sp_exp (- p.[1] * Ok t);
   e0 ← p.[1] * Ok y0 - p.[2] * x.[0];
   es ← mapM (fun i => p.[i+2] * x.[i] - p.[i+3] * x.[i+1])
             (seq 0 (length x - 1));
   Ok ([e0] ++ es))%py.

End Callbacks.

(** The entry for index [i] of the list comprehension of [f2]:
    [p[i+2]*x[i] - p[i+3]*x[i+1]]. *)
Definition f2_link {A : Type} `{Num A} (x p : list A) (i : nat) : res A :=
  (p.[i+2] * x.[i] - p.[i+3] * x.[i+1])%py.

(** The callback given to [PartiallySolvedSystem]:
<<
  lambda x0, y0, p0: {odesys.dep[0]: y0[0]*sp.exp(-p0[0]*(odesys.indep-x0))}
>>
    [dep] and [indep] are [odesys.dep] and [odesys.indep]; the dict with one
    item is the list of its items.  Every lookup that fails raises
    [IndexError], so the order in which key and value are evaluated does
    not show. *)
Definition lambda_x0_y0_p0 {A : Type} `{Num A} `{HasExp A}
    (dep : list A) (indep : A) (x0 : A) (y0 p0 : list A) : res (list (A * A)) :=
  (key ← dep.[0];
   val ← y0.[0] * lift1 sp_exp (- p0.[0] * (Ok indep - Ok x0));
   Ok [(key, val)])%py.

(** How the notebooks construct systems from the callbacks:
    [from_callback(f, 4, 4)], [from_callback(vdp1, 2, 1)],
    [from_callback(f2, 3, 5)]: callback, number of dependent variables,
    number of parameters. *)
Definition f_ny : nat := 4.
Definition f_nparams : nat := 4.
Definition vdp1_ny : nat := 2.
Definition vdp1_nparams : nat := 1.
Definition f2_ny : nat := 3.
Definition f2_nparams : nat := 5.


(** ** Python values, calls and events

    A cell handles numbers and strings written in the notebook, lists and
    tuples of them, functions it defined itself, names it imported, and
    objects handed out by the libraries (systems, arrays, axes), among them
    dict objects, which live in a heap because [dict.pop] updates them in
    place. *)

#[warnings="-register-all"]
Inductive value : Type :=
| VNone
| VBool (b : bool)
| VNum (q : Q)
| VStr (s : string)
| VSlice
| VList (vs : list value)
| VTuple (vs : list value)
| VFun (name : string)
| VName (qualified : string)
| VObj (h : nat)
| VDict (l : nat).

Inductive callee : Type :=
| Fn (qualified : string)
| Meth (self : value) (name : string)
| Attr (self : value) (name : string)
| Op (name : string).

Record call : Type := Call {
  target : callee;
  args : list value;
  kwargs : list (string * value)
}.

Inductive event : Type :=
| EvDef (name : string)
| EvCall (c : call) (r : res value).

(** The libraries.  The ODE package, sympy and matplotlib ([lib]) may read
    and update the dict objects; numpy's array operations and the builtins
    applied to arrays ([arr]) cannot reach them. *)
Class Library (World : Type) : Type := {
  lib : call -> gmap nat (gmap string value) -> World ->
        res value * gmap nat (gmap string value) * World;
  arr : call -> World -> res value * World
}.

Record state (World : Type) : Type := State {
  heap : gmap nat (gmap string value);
  world : World;
  trace : list event
}.
Arguments State {World} heap world trace.
Arguments heap {World} s.
Arguments world {World} s.
Arguments trace {World} s.

Definition Py (World : Type) (X : Type) : Type := state World -> res X * state World.

#[export] Instance Py_ret {World} : MRet (Py World) := fun _ x s => (Ok x, s).
#[export] Instance Py_bind {World} : MBind (Py World) := fun _ _ k m s =>
  match m s with
  | (Ok x, s1) => k x s1
  | (Raise e, s1) => (Raise e, s1)
  end.

Definition emit {World} (e : event) (s : state World) : state World :=
  State (heap s) (world s) (trace s ++ [e]).

Section Runtime.
Context {World : Type} `{Library World}.

Definition raise {X : Type} (e : exn) : Py World X := fun s => (Raise e, s).

Definition lift_res {X : Type} (r : res X) : Py World X := fun s => (r, s).

(** A call into the ODE package, sympy or matplotlib. *)
Definition call_lib (c : call) : Py World value := fun s =>
  let '(r, h, w) := lib c (heap s) (world s) in
  (r, State h w (trace s ++ [EvCall c r])).

(** A numpy call, or an operator or builtin applied to an array. *)
Definition call_arr (c : call) : Py World value := fun s =>
  let '(r, w) := arr c (world s) in
  (r, State (heap s) w (trace s ++ [EvCall c r])).

(** [def name(...)] or [name = lambda ...]: the function object exists
    from here on. *)
Definition define (name : string) : Py World value := fun s =>
  (Ok (VFun name), emit (EvDef name) s).

(** [d.pop(key)] and [d.pop(key, default)].  On a dict object the key is
    removed in place; without a default a missing key raises [KeyError].
    A handle the heap has no entry for is the empty dict.  On any other
    object the method belongs to the library. *)
Definition dict_pop (d : value) (key : string) (dflt : option value) : Py World value :=
  let c := Call (Meth d "pop") (VStr key :: option_list dflt) [] in
  fun s =>
    match d with
    | VDict l =>
        let m := default ∅ (heap s !! l) in
        match m !! key, dflt with
        | Some v, _ =>
            (Ok v, State (<[l := delete key m]> (heap s)) (world s)
                         (trace s ++ [EvCall c (Ok v)]))
        | None, Some v => (Ok v, emit (EvCall c (Ok v)) s)
        | None, None =>
            (Raise (KeyError key), emit (EvCall c (Raise (KeyError key))) s)
        end
    | _ => call_lib c s
    end.

(** The dict object behind a handle. *)
Definition get_dict (l : nat) : Py World (gmap string value) := fun s =>
  (Ok (default ∅ (heap s !! l)), s).

(** Iteration, as unpacking, [for] and [tuple(...)] use it: lists, tuples
    and strings are walked directly, a dict gives its keys, objects are
    asked for their elements, anything else is not iterable. *)
Definition iter_reply (r : value) : Py World (list value) :=
  match r with
  | VList vs => mret vs
  | _ => raise TypeError
  end.

Definition iterate (v : value) : Py World (list value) :=
  match v with
  | VList vs | VTuple vs => mret vs
  | VStr s => mret ((fun a => VStr (String a EmptyString)) <$> String.list_ascii_of_string s)
  | VObj _ | VName _ => call_arr (Call (Op "iter") [v] []) ≫= iter_reply
  | VDict l => m ← get_dict l; mret (VStr <$> (map_to_list m).*1)
  | VNone | VBool _ | VNum _ | VSlice | VFun _ => raise TypeError
  end.

(** [a, b = v] *)
Definition unpack2 (v : value) : Py World (value * value) :=
  vs ← iterate v;
  match vs with
  | [a; b] => mret (a, b)
  | _ => raise ValueError
  end.

(** [a, b, c = v] *)
Definition unpack3 (v : value) : Py World (value * value * value) :=
  vs ← iterate v;
  match vs with
  | [a; b; c] => mret (a, b, c)
  | _ => raise ValueError
  end.

(** [len(v)] *)
Definition len_reply (r : value) : Py World Z :=
  match r with
  | VNum q =>
      if negb (Pos.eqb (Qden q) 1) then raise TypeError
      else if (Qnum q <? 0)%Z then raise ValueError
      else mret (Qnum q)
  | _ => raise TypeError
  end.

Definition py_len (v : value) : Py World Z :=
  match v with
  | VList vs | VTuple vs => mret (Z.of_nat (length vs))
  | VStr s => mret (Z.of_nat (String.length s))
  | VObj _ | VName _ => call_arr (Call (Op "len") [v] []) ≫= len_reply
  | VDict l => m ← get_dict l; mret (Z.of_nat (size m))
  | VNone | VBool _ | VNum _ | VSlice | VFun _ => raise TypeError
  end.

(** [a + b] on values: tuples and lists are concatenated, anything else
    is the operands' business. *)
Definition py_add (a b : value) : Py World value :=
  match a, b with
  | VTuple xs, VTuple ys => mret (VTuple (xs ++ ys))
  | VList xs, VList ys => mret (VList (xs ++ ys))
  | _, _ => call_arr (Call (Op "+") [a; b] [])
  end.

(** [for x in xs: body] *)
Fixpoint for_each {X : Type} (xs : list X) (body : X -> Py World unit) : Py World unit :=
  match xs with
  | [] => mret tt
  | x :: rest => _ ← body x; for_each rest body
  end.

End Runtime.

(** [enumerate(xs)] *)
Definition enumerate {X : Type} (xs : list X) : list (nat * X) :=
  zip (seq 0 (length xs)) xs.

(** [l[start:]] on a list *)
Definition slice_from {X : Type} (l : list X) (start : Z) : list X :=
  let n := Z.of_nat (length l) in
  let i := if (start <? 0)%Z then Z.max 0 (start + n) else start in
  drop (Z.to_nat i) l.

Definition num (z : Z) : value := VNum (inject_Z z).

(** Shorthands for the shapes of call the cells make. *)
Section Calls.
Context {World : Type} `{Library World}.

Definition fn (name : string) (a : list value) (kw : list (string * value)) : Py World value :=
  call_lib (Call (Fn name) a kw).
Definition meth (self : value) (name : string) (a : list value) (kw : list (string * value)) : Py World value :=
  call_lib (Call (Meth self name) a kw).
Definition attr (self : value) (name : string) : Py World value :=
  call_lib (Call (Attr self name) [] []).
Definition np (name : string) (a : list value) (kw : list (string * value)) : Py World value :=
  call_arr (Call (Fn name) a kw).
Definition op (name : string) (a : list value) : Py World value :=
  call_arr (Call (Op name) a []).
Definition import_ (module : string) : Py World value :=
  fn "import" [VStr module] [].
Definition from_import (module name : string) : Py World value :=
  fn "import" [VStr module; VStr name] [].
End Calls.

(** ** examples/transformations.ipynb *)
Module Transformations.

Definition k : list Z := [7; 3; 2; 0]%Z.
Definition y0 : list Z := [1; 0; 0; 0]%Z.
Definition tend : Q := 1.0.
Definition ref : list Q :=
  [9.11881965554516244e-04; 8.55315762040415040e-02;
   3.07983556726319885e-01; 6.05572985104084083e-01]%Q.
Definition y0aug : list Q := [1; 1e-20; 1e-20; 1e-20]%Q.

Section Cells.
Context {World : Type} `{Library World}.

(**
<<
  def rmsd(x):
      diff = np.array(ref[4-len(x):]) - x
      return np.sum(diff**2)**0.5
>> *)
Definition rmsd (x : value) : Py World value :=
  n ← py_len x;
  a ← np "np.array" [VList (VNum <$> slice_from ref (4 - n))] [];
  diff ← op "-" [a; x];
  sq ← op "**" [diff; num 2];
  sm ← np "np.sum" [sq] [];
  op "**" [sm; VNum 0.5].

(**
<<
  def integrate_and_plot(odesys, integrator, tout, y0, k,
                         interpolate=False, stiffness=False, **kwargs):
      plt.figure(figsize=(14,5))
      xout, yout, info = odesys.integrate(tout, y0, k, integrator=integrator, **kwargs)
      plt.subplot(1, 3 if stiffness else 2, 1)
      odesys.plot_result(interpolate=interpolate)
      plt.legend(loc='best')

      plt.subplot(1, 3 if stiffness else 2, 2)
      plt.gca().set_xscale('log')
      plt.gca().set_yscale('log')
      odesys.plot_result(interpolate=interpolate)
      plt.legend(loc='best')

      if stiffness:
          ratios = odesys.stiffness()
          plt.subplot(1, 3, 3)
          plt.yscale('linear')
          plt.plot(odesys.internal_xout, ratios)
      info.pop('internal_xout')
      info.pop('internal_yout')
      return len(xout), info, rmsd(yout[-1, :])
>> *)
Definition integrate_and_plot (odesys integrator tout y0 k : value)
    (interpolate stiffness : bool) (kwargs : list (string * value))
    : Py World (Z * value * value) :=
  _ ← fn "plt.figure" [] [("figsize", VTuple [num 14; num 5])];
  r ← meth odesys "integrate" [tout; y0; k] (("integrator", integrator) :: kwargs);
  '(xout, yout, info) ← unpack3 r;
  _ ← fn "plt.subplot" [num 1; if stiffness then num 3 else num 2; num 1] [];
  _ ← meth odesys "plot_result" [] [("interpolate", VBool interpolate)];
  _ ← fn "plt.legend" [] [("loc", VStr "best")];
  _ ← fn "plt.subplot" [num 1; if stiffness then num 3 else num 2; num 2] [];
  ax ← fn "plt.gca" [] [];
  _ ← meth ax "set_xscale" [VStr "log"] [];
  ax ← fn "plt.gca" [] [];
  _ ← meth ax "set_yscale" [VStr "log"] [];
  _ ← meth odesys "plot_result" [] [("interpolate", VBool interpolate)];
  _ ← fn "plt.legend" [] [("loc", VStr "best")];
  _ ← (if stiffness then
         ratios ← meth odesys "stiffness" [] [];
         _ ← fn "plt.subplot" [num 1; num 3; num 3] [];
         _ ← fn "plt.yscale" [VStr "linear"] [];
         xs ← attr odesys "internal_xout";
         _ ← fn "plt.plot" [xs; ratios] [];
         mret tt
       else mret tt);
  _ ← dict_pop info "internal_xout" None;
  _ ← dict_pop info "internal_yout" None;
  n ← py_len xout;
  last ← op "getitem" [yout; VTuple [num (-1); VSlice]];
  e ← rmsd last;
  mret (n, info, e).

(** The cells, top to bottom.  A global bound by one cell and read by a
    later one is a bound variable here; the value a cell displays is
    computed and dropped. *)
Definition notebook : Py World unit :=
  (* cell 1 *)
  _ ← import_ "numpy";
  _ ← import_ "matplotlib.pyplot";
  _ ← import_ "sympy";
  _ ← from_import "pyodesys" "OdeSys";
  _ ← from_import "pyodesys.symbolic" "SymbolicSys";
  _ ← from_import "pyodesys.symbolic" "symmetricsys";
  _ ← fn "sp.init_printing" [] [];
  _ ← fn "%matplotlib" [VStr "inline"] [];
  v ← attr (VName "sp") "__version__";
  _ ← fn "print" [v] [];
  (* cell 2 *)
  f ← define "f";
  let k := VList (num <$> k) in
  let y0 := VList (num <$> y0) in
  let tend := VNum tend in
  (* cell 3 *)
  _ ← define "rmsd";
  (* cell 4 *)
  odesys ← fn "OdeSys" [f] [];
  t ← np "np.linspace" [num 0; tend] [];
  r ← meth odesys "integrate" [t; y0] [("params", k)];
  '(tout, yout, info) ← unpack3 r;
  _ ← meth odesys "plot_result" [] [("names", VStr "abcd")];
  _ ← fn "plt.legend" [] [];
  _ ← dict_pop info "internal_xout" None;
  _ ← dict_pop info "internal_yout" None;
  last ← op "getitem" [yout; VTuple [num (-1); VSlice]];
  _ ← rmsd last;
  (* cell 5 *)
  odesys ← fn "SymbolicSys.from_callback" [f; num 4; num 4] [("names", VBool true)];
  _ ← attr odesys "exprs";
  _ ← meth odesys "get_jac" [] [];
  _ ← meth odesys "get_dfdx" [] [];
  (* cell 6 *)
  _ ← define "integrate_and_plot";
  (* cell 7 *)
  t ← np "np.linspace" [num 0; tend] [];
  _ ← integrate_and_plot odesys (VStr "scipy") t y0 k false false
        [("first_step", VNum 1e-14); ("name", VStr "vode"); ("method", VStr "bdf")];
  (* cell 8 *)
  v ← meth odesys "f_cb" [num 0; y0; k] [];
  _ ← fn "print" [v] [];
  _ ← fn "print" [] [];
  v ← meth odesys "j_cb" [num 0; y0; k] [];
  _ ← fn "print" [v] [];
  (* cell 9 *)
  _ ← integrate_and_plot odesys (VStr "cvode") tend y0 k false false
        [("atol", VNum 1e-8); ("rtol", VNum 1e-8); ("method", VStr "bdf")];
  (* cell 10 *)
  let y0aug_ := VList (VNum <$> y0aug) in
  let logexp := VTuple [VName "sp.log"; VName "sp.exp"] in
  cb ← define "lambda exprs";
  LogLogSys ← fn "symmetricsys" [logexp; logexp] [("exprs_process_cb", cb)];
  (* cell 11 *)
  tsys ← meth LogLogSys "from_callback" [f; num 4; num 4] [("names", VBool true)];
  _ ← attr tsys "exprs";
  _ ← meth tsys "get_jac" [] [];
  _ ← meth tsys "get_dfdx" [] [];
  (* cell 12 *)
  _ ← integrate_and_plot tsys (VStr "cvode") (VList [VNum 1e-12; tend]) y0aug_ k false false
        [("atol", VNum 1e-7); ("rtol", VNum 1e-7); ("first_step", VNum 1e-4)];
  (* cell 13 *)
  _ ← integrate_and_plot tsys (VStr "odeint") (VList [VNum 1e-12; tend]) y0aug_ k false false
        [("atol", VNum 1e-8); ("rtol", VNum 1e-8); ("first_step", VNum 1e-4)];
  (* cell 14 *)
  f2 ← define "f2";
  tsys2 ← meth LogLogSys "from_callback" [f2; num 3; num 5] [("names", VBool true)];
  _ ← attr tsys2 "exprs";
  _ ← meth tsys2 "get_jac" [] [];
  (* cell 15 *)
  a0 ← lift_res (getitem y0aug 0);
  _ ← integrate_and_plot tsys2 (VStr "cvode") (VList [VNum 1e-12; tend])
        (VList (VNum <$> slice_from y0aug 1))
        (VList [VNum a0; num 7; num 3; num 2; num 1]) false true
        [("atol", VNum 1e-7); ("rtol", VNum 1e-7); ("first_step", VNum 1e-4)];
  (* cell 16 *)
  _ ← integrate_and_plot odesys (VStr "cvode") (VList [VNum 1e-12; tend]) y0aug_
        (VList [num 7; num 3; num 2; num 1]) false true
        [("atol", VNum 1e-7); ("rtol", VNum 1e-7); ("first_step", VNum 1e-4)];
  (* cell 17 *)
  _ ← from_import "pyodesys.symbolic" "PartiallySolvedSystem";
  cb ← define "lambda x0, y0, p0";
  psys ← fn "PartiallySolvedSystem" [odesys; cb] [];
  _ ← attr psys "exprs";
  _ ← meth psys "get_jac" [] [];
  (* cell 18 *)
  _ ← integrate_and_plot psys (VStr "cvode") (VList [VNum 1e-12; tend]) y0aug_
        (VList [num 7; num 3; num 2; num 1]) false true
        [("atol", VNum 1e-7); ("rtol", VNum 1e-7); ("first_step", VNum 1e-4)];
  (* cell 19 *)
  rk4 ← from_import "pyodesys.integrators" "RK4_example_integartor";
  (* cell 20 *)
  _ ← integrate_and_plot odesys rk4 (VList [VNum 1e-12; tend]) y0aug_ k false false
        [("atol", VNum 1e-8); ("rtol", VNum 1e-8); ("first_step", VNum 1e-1)];
  (* cell 21 *)
  _ ← integrate_and_plot tsys rk4 (VList [VNum 1e-12; tend]) y0aug_ k false false
        [("atol", VNum 1e-8); ("rtol", VNum 1e-8); ("first_step", VNum 1e-1)];
  mret tt.

(** The callback given to [symmetricsys] as [exprs_process_cb]:
<<
  lambda exprs: [sp.powsimp(expr.expand(), force=True) for expr in exprs]
>>
    [powsimp_each] is the comprehension over the elements of [exprs]. *)
Fixpoint powsimp_each (exprs : list value) : Py World (list value) :=
  match exprs with
  | [] => mret []
  | expr :: rest =>
      e ← meth expr "expand" [] [];
      v ← fn "sp.powsimp" [e] [("force", VBool true)];
      vs ← powsimp_each rest;
      mret (v :: vs)
  end.

Definition lambda_exprs (exprs : value) : Py World value :=
  es ← iterate exprs;
  vs ← powsimp_each es;
  mret (VList vs).

End Cells.
End Transformations.

(** ** examples/van_der_pol_interpolation.ipynb *)
Module VanDerPol.

Definition y0 : list Z := [0; 1]%Z.
Definition mu : Q := 2.5.
Definition tend : Z := 25.

(** [interpolate] after [if interpolate is None: interpolate = nderiv > 0] *)
Definition interpolate_flag (interpolate : option bool) (nderiv : Z) : bool :=
  match interpolate with
  | None => (0 <? nderiv)%Z
  | Some b => b
  end.

Section Cells.
Context {World : Type} `{Library World}.

(**
<<
  def solve_and_plot(sparse=0, roots=None, nderiv=0, interpolate=None, **kwargs):
      odesys2 = SymbolicSys(zip(odesys1.dep, odesys1.exprs), odesys1.indep, odesys1.params, roots=roots)
      xout2, yout2, info2 = odesys2.integrate([0, tend], y0, [mu], integrator='cvode', sparse=sparse, nderiv=nderiv)
      info2.pop('root_indices', None)
      if interpolate is None:
          interpolate = nderiv > 0
      plt.figure(figsize=(14, 8 if interpolate else 4))
      ax1 = plt.subplot(2 if interpolate else 1, 1, 1)
      c = ('k', 'r')
      xplot, yplot = odesys2.plot_result(interpolate=interpolate, m_lim=100,
                                         ls=('-',), c=c, **kwargs)
      plt.ylabel('y')

      if interpolate:
          xref, yref, inforef = odesys2.integrate(xplot, y0, [mu], integrator='cvode',
                                                  force_predefined=True, nsteps=5000)
          for idx, y in enumerate(yref.T):
              plt.plot(xref, y, ls='--', c=c[idx], alpha=0.35)

          plt.subplots_adjust(hspace=0.0005)
          ax2 = plt.subplot(2, 1, 2, sharex=ax1)
          plt.ylabel('error')
          ydiff = yplot - yref
          for idx, y in enumerate(ydiff.T):
              plt.plot(xref, y, ls='-', c=c[idx])
          plt.setp(ax1.get_xticklabels(), visible=False)

      plt.xlabel('x')
      info2.pop('internal_xout')
      info2.pop('internal_yout')
      return info2, xplot, yplot
>>
    [odesys1] is the notebook's global of that name. *)
Definition solve_and_plot (odesys1 : value) (sparse : Z) (roots : value) (nderiv : Z)
    (interpolate : option bool) (kwargs : list (string * value))
    : Py World (value * value * value) :=
  let y0 := VList (num <$> y0) in
  let mu := VNum mu in
  dep ← attr odesys1 "dep";
  exprs ← attr odesys1 "exprs";
  z ← call_arr (Call (Fn "zip") [dep; exprs] []);
  indep ← attr odesys1 "indep";
  params ← attr odesys1 "params";
  odesys2 ← fn "SymbolicSys" [z; indep; params] [("roots", roots)];
  r ← meth odesys2 "integrate" [VList [num 0; num tend]; y0; VList [mu]]
        [("integrator", VStr "cvode"); ("sparse", num sparse); ("nderiv", num nderiv)];
  '(xout2, yout2, info2) ← unpack3 r;
  _ ← dict_pop info2 "root_indices" (Some VNone);
  let interpolate := interpolate_flag interpolate nderiv in
  _ ← fn "plt.figure" [] [("figsize", VTuple [num 14; if interpolate then num 8 else num 4])];
  ax1 ← fn "plt.subplot" [if interpolate then num 2 else num 1; num 1; num 1] [];
  let c := [VStr "k"; VStr "r"] in
  r ← meth odesys2 "plot_result" []
        ([("interpolate", VBool interpolate); ("m_lim", num 100);
          ("ls", VTuple [VStr "-"]); ("c", VTuple c)] ++ kwargs);
  '(xplot, yplot) ← unpack2 r;
  _ ← fn "plt.ylabel" [VStr "y"] [];
  _ ← (if interpolate then
         r ← meth odesys2 "integrate" [xplot; y0; VList [mu]]
               [("integrator", VStr "cvode"); ("force_predefined", VBool true);
                ("nsteps", num 5000)];
         '(xref, yref, inforef) ← unpack3 r;
         yT ← call_arr (Call (Attr yref "T") [] []);
         ys ← iterate yT;
         _ ← for_each (enumerate ys) (fun '(idx, y) =>
               ci ← lift_res (getitem c idx);
               _ ← fn "plt.plot" [xref; y] [("ls", VStr "--"); ("c", ci); ("alpha", VNum 0.35)];
               mret tt);
         _ ← fn "plt.subplots_adjust" [] [("hspace", VNum 0.0005)];
         ax2 ← fn "plt.subplot" [num 2; num 1; num 2] [("sharex", ax1)];
         _ ← fn "plt.ylabel" [VStr "error"] [];
         ydiff ← op "-" [yplot; yref];
         dT ← call_arr (Call (Attr ydiff "T") [] []);
         ds ← iterate dT;
         _ ← for_each (enumerate ds) (fun '(idx, y) =>
               ci ← lift_res (getitem c idx);
               _ ← fn "plt.plot" [xref; y] [("ls", VStr "-"); ("c", ci)];
               mret tt);
         labels ← meth ax1 "get_xticklabels" [] [];
         _ ← fn "plt.setp" [labels] [("visible", VBool false)];
         mret tt
       else mret tt);
  _ ← fn "plt.xlabel" [VStr "x"] [];
  _ ← dict_pop info2 "internal_xout" None;
  _ ← dict_pop info2 "internal_yout" None;
  mret (info2, xplot, yplot).

(** [tuple(v)] *)
Definition py_tuple (v : value) : Py World value :=
  vs ← iterate v; mret (VTuple vs).

Definition notebook : Py World unit :=
  (* cell 1 *)
  _ ← import_ "itertools";
  _ ← import_ "numpy";
  _ ← import_ "sympy";
  _ ← import_ "matplotlib.pyplot";
  _ ← from_import "pyodesys.symbolic" "SymbolicSys";
  _ ← fn "sp.init_printing" [] [];
  _ ← fn "%matplotlib" [VStr "inline"] [];
  v ← attr (VName "sp") "__version__";
  _ ← fn "print" [v] [];
  (* cell 2 *)
  vdp1 ← define "vdp1";
  (* cell 3: y0, mu, tend *)
  (* cell 4 *)
  odesys1 ← fn "SymbolicSys.from_callback" [vdp1; num 2; num 1]
              [("names", VList [VStr "y0"; VStr "y1"])];
  _ ← attr odesys1 "exprs";
  (* cell 5 *)
  t ← np "np.linspace" [num 0; num tend; num 30] [];
  _ ← meth odesys1 "integrate" [t; VList (num <$> y0); VList [VNum mu]] [("name", VStr "vode")];
  r ← meth odesys1 "plot_result" [] [];
  '(xout, yout) ← unpack2 r;
  (* cell 6 *)
  _ ← define "solve_and_plot";
  (* cell 7 *)
  _ ← solve_and_plot odesys1 (-1) VNone 0 None [];
  (* cell 8 *)
  roots ← attr odesys1 "exprs";
  _ ← solve_and_plot odesys1 (-1) roots 0 None [("lines", VNum 0.3)];
  (* cell 9 *)
  roots ← attr odesys1 "exprs";
  _ ← solve_and_plot odesys1 (-1) roots 1 None [];
  (* cell 10 *)
  roots ← attr odesys1 "exprs";
  _ ← solve_and_plot odesys1 (-1) roots 2 None [];
  (* cell 11 *)
  jac ← meth odesys1 "get_jac" [] [];
  exprs ← attr odesys1 "exprs";
  d ← meth jac "dot" [exprs] [];
  d2fdx2 ← py_tuple d;
  (* cell 12 *)
  exprs ← attr odesys1 "exprs";
  roots ← py_add exprs d2fdx2;
  _ ← solve_and_plot odesys1 (-1) roots 0 None [];
  (* cell 13 *)
  exprs ← attr odesys1 "exprs";
  roots ← py_add exprs d2fdx2;
  _ ← solve_and_plot odesys1 (-1) roots 1 None [];
  (* cell 14 *)
  exprs ← attr odesys1 "exprs";
  roots ← py_add exprs d2fdx2;
  _ ← solve_and_plot odesys1 (-1) roots 2 None [];
  (* cell 15 *)
  _ ← import_ "scipy.interpolate";
  exprs ← attr odesys1 "exprs";
  roots ← py_add exprs d2fdx2;
  _ ← solve_and_plot odesys1 (-1) roots 0 (Some true)
        [("interp_from_deriv", VName "scipy.interpolate.PchipInterpolator")];
  mret tt.

End Cells.
End VanDerPol.


(** ** A small library to run the notebooks against

    Every call succeeds and returns a fresh object; [integrate] returns a
    triple whose third component is a new dict holding [info];
    [plot_result] returns a pair; arrays have [n] rows. *)
Definition calls_method (c : call) (name : string) : bool :=
  match target c with
  | Meth _ m => String.eqb m name
  | _ => false
  end.

Definition calls_fn (c : call) (name : string) : bool :=
  match target c with
  | Fn m => String.eqb m name
  | _ => false
  end.

Definition calls_op (c : call) (name : string) : bool :=
  match target c with
  | Op m => String.eqb m name
  | _ => false
  end.

Definition toy_lib (info : gmap string value) (c : call)
    (h : gmap nat (gmap string value)) (w : nat)
    : res value * gmap nat (gmap string value) * nat :=
  if calls_method c "integrate" then
    (Ok (VTuple [VObj w; VObj (S w); VDict (S (S w))]), <[S (S w) := info]> h, 3 + w)
  else if calls_method c "plot_result" then
    (Ok (VTuple [VObj w; VObj (S w)]), h, 2 + w)
  else (Ok (VObj w), h, S w).

Definition toy_arr (n : nat) (c : call) (w : nat) : res value * nat :=
  if calls_op c "len" then (Ok (num (Z.of_nat n)), w)
  else if calls_op c "iter" then (Ok (VList (VObj <$> seq w n)), n + w)
  else (Ok (VObj w), S w).

Definition toy (info : gmap string value) (n : nat) : Library nat :=
  {| lib := toy_lib info; arr := toy_arr n |}.

Definition toy_info : gmap string value :=
  {[ "internal_xout" := VObj 0; "internal_yout" := VObj 0;
     "root_indices" := VList []; "success" := VBool true ]}.

Definition is_ok {X} (r : res X) : bool :=
  match r with Ok _ => true | Raise _ => false end.

Definition integrate_calls (tr : list event) : list call :=
  omap (fun e => match e with
                 | EvCall c _ => if calls_method c "integrate" then Some c else None
                 | EvDef _ => None
                 end) tr.


(** The same library, except that the function [name] raises. *)
Definition failing_lib (name : string) (c : call)
    (h : gmap nat (gmap string value)) (w : nat)
    : res value * gmap nat (gmap string value) * nat :=
  if calls_fn c name then (Raise (LibraryError name), h, w)
  else toy_lib toy_info c h w.

Definition failing (name : string) : Library nat :=
  {| lib := failing_lib name; arr := toy_arr 4 |}.

(** A run of a whole notebook starts in a fresh kernel: no dict objects, no
    events. *)
Definition run {World X} (m : Py World X) (w : World) : res X * state World :=
  m (State ∅ w []).

Definition toy_transformations : res unit * state nat :=
  run (Transformations.notebook (H := toy toy_info 4)) 0.

Definition toy_van_der_pol : res unit * state nat :=
  run (VanDerPol.notebook (H := toy toy_info 2)) 0.

(** ** Vocabulary for statements about runs *)

(** The events a computation adds to the trace. *)
Definition events_of {World X} (m : Py World X) (s : state World) : list event :=
  drop (length (trace s)) (trace (m s).2).

(** No call in [evs] raised. *)
Definition clean (evs : list event) : Prop :=
  forall c e, EvCall c (Raise e) ∉ evs.

(** A call that raised is the last event, and its exception is the result. *)
Definition propagated {X} (r : res X) (evs : list event) : Prop :=
  match r with
  | Ok _ => clean evs
  | Raise e => clean evs \/ exists evs0 c, evs = evs0 ++ [EvCall c (Raise e)] /\ clean evs0
  end.

Definition faithful {World X} (m : Py World X) : Prop :=
  forall s, exists evs, trace (m s).2 = trace s ++ evs /\ propagated (m s).1 evs.

(** Weakest precondition: [m], started in [s], ends in a result and a state
    that satisfy [Q]. *)
Definition wp {World X} (m : Py World X) (Q : res X -> state World -> Prop)
    (s : state World) : Prop :=
  Q (m s).1 (m s).2.

(** Every event satisfies [P] with respect to the events before it. *)
Definition steps_ok (P : list event -> event -> Prop) (tr : list event) : Prop :=
  forall pre e post, tr = pre ++ e :: post -> P pre e.

(** What unpacking or iterating [v] yields, given the events so far. *)
Definition elements_of (h : list event) (v : value) (vs : list value) : Prop :=
  v = VList vs \/ v = VTuple vs \/
  (exists s, v = VStr s /\ vs = (fun a => VStr (String a EmptyString)) <$> String.list_ascii_of_string s) \/
  (exists l keys, v = VDict l /\ vs = VStr <$> keys) \/
  EvCall (Call (Op "iter") [v] []) (Ok (VList vs)) ∈ h.

(** System constructors that take a right-hand-side callback first. *)
Definition takes_callback (c : call) : bool :=
  calls_fn c "OdeSys" || calls_fn c "SymbolicSys.from_callback"
  || calls_method c "from_callback".

(** All the ways the notebooks construct a system. *)
Definition constructs (c : call) : bool :=
  takes_callback c || calls_fn c "SymbolicSys" || calls_fn c "PartiallySolvedSystem".

Definition constructed (h : list event) (sys : value) : Prop :=
  exists c, constructs c = true /\ EvCall c (Ok sys) ∈ h.

Definition integrated (h : list event) (sys : value) : Prop :=
  exists c r, target c = Meth sys "integrate" /\ EvCall c (Ok r) ∈ h.

(** [d] is the third value of what an earlier integration returned. *)
Definition reported (h : list event) (d : value) : Prop :=
  exists c r x y, calls_method c "integrate" = true /\ EvCall c (Ok r) ∈ h /\
                  elements_of h r [x; y; d].

(** The order of the steps: define, construct, integrate, plot and report. *)
Definition in_order (h : list event) (e : event) : Prop :=
  match e with
  | EvDef _ => True
  | EvCall c _ =>
      (takes_callback c = true ->
       exists name, head (args c) = Some (VFun name) /\ EvDef name ∈ h) /\
      (forall sys, target c = Meth sys "integrate" -> constructed h sys) /\
      (forall sys, target c = Meth sys "plot_result" -> integrated h sys) /\
      (forall d, target c = Meth d "pop" -> reported h d)
  end.

(** An integration request gives the grid, the initial values and the
    parameters (third positional argument or [params=]). *)
Definition gives_grid_y0_params (c : call) : Prop :=
  length (args c) = 3 \/ (length (args c) = 2 /\ "params" ∈ (kwargs c).*1).

Definition has_kwarg (c : call) (name : string) : Prop := name ∈ (kwargs c).*1.

(** An integration request that names an integrator and gives both tolerances. *)
Definition gives_integrator_and_tolerances (c : call) : Prop :=
  (exists name, (("integrator", VStr name) : string * value) ∈ kwargs c) /\
  has_kwarg c "atol" /\ has_kwarg c "rtol".

(** The grids the notebooks pass. *)
Definition two_end_points (g : value) : Prop :=
  exists a b, g = VList [VNum a; VNum b] /\ (a < b)%Q.

Definition from_linspace (h : list event) (g : value) : Prop :=
  exists c, calls_fn c "np.linspace" = true /\ EvCall c (Ok g) ∈ h.

Definition from_plot_result (h : list event) (g : value) : Prop :=
  exists c r y, calls_method c "plot_result" = true /\ EvCall c (Ok r) ∈ h /\
                elements_of h r [g; y].

Definition scalar_end_point (g : value) : Prop :=
  exists q, g = VNum q.

Definition grid_of (c : call) : option value := head (args c).

(** A grid that is a sequence, not a bare number. *)
Definition is_sequence (g : value) : Prop :=
  match g with
  | VList _ | VTuple _ | VObj _ => True
  | _ => False
  end.

Definition integration_request (P : list event -> call -> Prop) (h : list event) (e : event) : Prop :=
  match e with
  | EvCall c _ => calls_method c "integrate" = true -> P h c
  | EvDef _ => True
  end.

(** Events of the builtins ([len], iteration, [+]) when they are applied to
    a library object. *)
Definition asks (e : event) : Prop :=
  match e with
  | EvCall c _ =>
      match target c with
      | Op name => name = "iter" \/ name = "len" \/ name = "+"
      | _ => False
      end
  | EvDef _ => False
  end.

(** Events of the helpers, [rmsd] included: operators, builtins and array
    functions, answered without access to the dict objects. *)
Definition quiet (e : event) : Prop :=
  match e with
  | EvCall c _ =>
      match target c with
      | Op _ => True
      | Fn name => name = "np.array" \/ name = "np.sum"
      | _ => False
      end
  | EvDef _ => False
  end.

(** [m] leaves the dict objects alone, adds only events that satisfy [φ],
    and its result satisfies [Φ] with respect to the trace it leaves. *)
Definition quietly {World X} (φ : event -> Prop) (m : Py World X)
    (Φ : X -> list event -> Prop) : Prop :=
  forall h w tr, exists w' evs,
    (m (State h w tr)).2 = State h w' (tr ++ evs) /\
    Forall φ evs /\
    forall x, (m (State h w tr)).1 = Ok x -> Φ x (tr ++ evs).

(** The grids of the notebooks' integration requests. *)
Definition good_grid (h : list event) (g : value) : Prop :=
  two_end_points g \/ from_linspace h g \/ from_plot_result h g \/ scalar_end_point g.

Definition grid_known (h : list event) (c : call) : Prop :=
  exists g, grid_of c = Some g /\ good_grid h g.

(** Everything the cells get right about a step, in one predicate. *)
Definition well_formed (h : list event) (e : event) : Prop :=
  in_order h e /\
  integration_request (fun h c => gives_grid_y0_params c /\ grid_known h c) h e.

(** [m] keeps [P] true of every step and [I] true of the dict objects, and
    only appends to the trace [tr0]. *)
Definition kept {World X} (P : list event -> event -> Prop)
    (I : gmap nat (gmap string value) -> Prop) (tr0 : list event)
    : res X -> state World -> Prop :=
  fun _ s' => steps_ok P (trace s') /\ I (heap s') /\ tr0 `prefix_of` trace s'.

Definition any_heap (h : gmap nat (gmap string value)) : Prop := True.

(** The library leaves [I] true of the dict objects. *)
Definition lib_keeps {World} `{Library World} (I : gmap nat (gmap string value) -> Prop) : Prop :=
  forall c h w, I h -> I (lib c h w).1.2.

(** [d.pop(key)] leaves [I] true of the dict objects. *)
Definition pop_keeps (I : gmap nat (gmap string value) -> Prop) : Prop :=
  forall h l key, I h -> I (<[l := delete key (default ∅ (h !! l))]> h).

(** What [d.pop(key[, default])] can answer when the dict objects are [h]. *)
Definition pop_reply (h : gmap nat (gmap string value)) (d : value) (key : string)
    (dflt : option value) (r : res value) : Prop :=
  match d with
  | VDict l =>
      match default ∅ (h !! l) !! key, dflt with
      | Some v, _ => r = Ok v
      | None, Some v => r = Ok v
      | None, None => r = Raise (KeyError key)
      end
  | _ => True
  end.

(** [m], if it returns, returns a value and a state that satisfy [Φ]. *)
Definition ok_then {World X} (Φ : X -> state World -> Prop)
    : res X -> state World -> Prop :=
  fun r s' => forall x, r = Ok x -> Φ x s'.

(** The reference integration of [solve_and_plot] and its error computation. *)
Definition is_reference_integration (c : call) : bool :=
  calls_method c "integrate"
  && existsb (fun kv => String.eqb kv.1 "force_predefined") (kwargs c).

Definition is_error_difference (c : call) : bool := calls_op c "-".

Definition reference_only_if (flag : bool) (h : list event) (e : event) : Prop :=
  match e with
  | EvCall c _ =>
      is_reference_integration c || is_error_difference c = true -> flag = true
  | EvDef _ => True
  end.




(** A callback that only hands on values it was given. *)
Definition only_passes_on {A : Type} (g : A -> list A -> list A -> res (list A)) : Prop :=
  forall t x k r v, g t x k = Ok r -> v ∈ r -> v = t \/ v ∈ x \/ v ∈ k.


(** [len(v)] is [n], given the events so far. *)
Definition length_of (h : list event) (v : value) (n : Z) : Prop :=
  (exists vs, (v = VList vs \/ v = VTuple vs) /\ n = Z.of_nat (length vs)) \/
  (exists s, v = VStr s /\ n = Z.of_nat (String.length s)) \/
  (exists l, v = VDict l) \/
  EvCall (Call (Op "len") [v] []) (Ok (num n)) ∈ h.

(** The five array calls of [rmsd(x)] for [len(x) = n], with their answers. *)
Definition rmsd_calls (x : value) (n : Z) (a diff sq sm v : value) : list event :=
  [EvCall (Call (Fn "np.array") [VList (VNum <$> slice_from Transformations.ref (4 - n))] [])
          (Ok a);
   EvCall (Call (Op "-") [a; x] []) (Ok diff);
   EvCall (Call (Op "**") [diff; num 2] []) (Ok sq);
   EvCall (Call (Fn "np.sum") [sq] []) (Ok sm);
   EvCall (Call (Op "**") [sm; VNum 0.5] []) (Ok v)].

(** The calls of the stiffness panel of [integrate_and_plot]. *)
Definition is_stiffness_panel (c : call) : bool :=
  calls_method c "stiffness" || calls_fn c "plt.yscale" || calls_fn c "plt.plot"
  || match target c with
     | Attr _ name => String.eqb name "internal_xout"
     | _ => false
     end.

Definition stiffness_only_if (flag : bool) (h : list event) (e : event) : Prop :=
  match e with
  | EvCall c _ => is_stiffness_panel c = true -> flag = true
  | EvDef _ => True
  end.

(** An integration request is [c0] and the first one; a [plot_result]
    request is [cplot]. *)
Definition integrates_once (c0 cplot : call) (h : list event) (e : event) : Prop :=
  match e with
  | EvCall c _ =>
      (calls_method c "integrate" = true -> c = c0 /\ integrate_calls h = []) /\
      (calls_method c "plot_result" = true -> c = cplot)
  | EvDef _ => True
  end.

(** The requests of [solve_and_plot]: both integrations start from [y0]
    with the parameter [[mu]] and use cvode; the caller's keywords go to
    [plot_result] only. *)
Definition solve_and_plot_request (sparse nderiv : Z) (flag : bool)
    (kw : list (string * value)) (h : list event) (e : event) : Prop :=
  match e with
  | EvCall c _ =>
      (calls_method c "integrate" = true ->
       exists grid,
         args c = [grid; VList (num <$> VanDerPol.y0); VList [VNum VanDerPol.mu]] /\
         ((grid = VList [num 0; num VanDerPol.tend] /\
           kwargs c = [("integrator", VStr "cvode"); ("sparse", num sparse);
                       ("nderiv", num nderiv)]) \/
          kwargs c = [("integrator", VStr "cvode"); ("force_predefined", VBool true);
                      ("nsteps", num 5000)])) /\
      (calls_method c "plot_result" = true ->
       args c = [] /\
       kwargs c = [("interpolate", VBool flag); ("m_lim", num 100);
                   ("ls", VTuple [VStr "-"]); ("c", VTuple [VStr "k"; VStr "r"])] ++ kw)
  | EvDef _ => True
  end.

(** No keyword is given twice in a call. *)
Definition keywords_distinct (c : call) : Prop := NoDup (kwargs c).*1.

(** [plt.subplot(rows, cols, index)] names a panel of the grid. *)
Definition subplot_in_grid (c : call) : Prop :=
  calls_fn c "plt.subplot" = true ->
  exists rows cols idx,
    args c = [num rows; num cols; num idx] /\ (1 <= idx <= rows * cols)%Z.

(** The callbacks by the names the notebooks bind them to. *)
Definition callback_named {A : Type} `{Num A} `{HasExp A} (name : string)
    : option (A -> list A -> list A -> res (list A)) :=
  if String.eqb name "f" then Some f
  else if String.eqb name "vdp1" then Some vdp1
  else if String.eqb name "f2" then Some f2
  else None.

(** The callback and the two sizes of a call
    [from_callback(cb, ny, nparams, ...)]. *)
Definition from_callback_sizes (c : call) : option (string * Z * Z) :=
  if calls_fn c "SymbolicSys.from_callback" || calls_method c "from_callback" then
    match args c with
    | [VFun name; VNum ny; VNum np] =>
        if Pos.eqb (Qden ny) 1 && Pos.eqb (Qden np) 1 then Some (name, Qnum ny, Qnum np)
        else None
    | _ => None
    end
  else None.

Definition declared_sizes : list (string * Z * Z) :=
  [("f", Z.of_nat f_ny, Z.of_nat f_nparams);
   ("vdp1", Z.of_nat vdp1_ny, Z.of_nat vdp1_nparams);
   ("f2", Z.of_nat f2_ny, Z.of_nat f2_nparams)].

Definition declares_sizes (c : call) : Prop :=
  calls_fn c "SymbolicSys.from_callback" || calls_method c "from_callback" = true ->
  exists d, from_callback_sizes c = Some d /\ d ∈ declared_sizes.

Definition tidy (h : list event) (e : event) : Prop :=
  match e with
  | EvCall c _ => keywords_distinct c /\ subplot_in_grid c /\ declares_sizes c
  | EvDef _ => True
  end.

(** [P] holds of every call. *)
Definition every_call (P : call -> Prop) (h : list event) (e : event) : Prop :=
  match e with
  | EvCall c _ => P c
  | EvDef _ => True
  end.

(** A call of [from_callback] declares the sizes of a callback of the
    notebooks, and that callback returns one entry per variable on a state
    and parameters of these sizes. *)
Definition declares_accepted_sizes (c : call) : Prop :=
  calls_fn c "SymbolicSys.from_callback" || calls_method c "from_callback" = true ->
  exists name ny np,
    from_callback_sizes c = Some (name, ny, np) /\
    forall (A : Type) (N : Num A) (E : HasExp A),
    exists g, callback_named name = Some g /\
      forall (t : A) (x p : list A),
        length x = Z.to_nat ny -> length p = Z.to_nat np ->
        exists r, g t x p = Ok r /\ length r = Z.to_nat ny.

(** The system [sys] was built from the callback [name]: by a constructor
    that takes the callback, or by [PartiallySolvedSystem] from a system
    that was. *)
Definition built_from (h : list event) (sys : value) (name : string) : Prop :=
  (exists c, takes_callback c = true /\ head (args c) = Some (VFun name) /\
             EvCall c (Ok sys) ∈ h) \/
  (exists c0 sys0 cb,
     takes_callback c0 = true /\ head (args c0) = Some (VFun name) /\
     EvCall c0 (Ok sys0) ∈ h /\
     EvCall (Call (Fn "PartiallySolvedSystem") [sys0; cb] []) (Ok sys) ∈ h).

(** The value given for the keyword [name]. *)
Fixpoint keyword (name : string) (kw : list (string * value)) : option value :=
  match kw with
  | [] => None
  | (n, v) :: rest => if String.eqb n name then Some v else keyword name rest
  end.

(** The initial values and the parameters of an integration request
    [integrate(grid, y0, params)] or [integrate(grid, y0, params=...)]. *)
Definition initial_values_of (c : call) : option value := args c !! 1.

Definition params_of (c : call) : option value :=
  match args c !! 2 with
  | Some p => Some p
  | None => keyword "params" (kwargs c)
  end.

(** The callback [name] returns one entry per variable on [ny] variables
    and [np] parameters. *)
Definition accepts (name : string) (ny np : nat) : Prop :=
  forall (A : Type) (N : Num A) (E : HasExp A),
  exists g, callback_named name = Some g /\
    forall (t : A) (x p : list A),
      length x = ny -> length p = np -> exists r, g t x p = Ok r /\ length r = ny.

(** An integration request gives initial values and parameters that the
    callback of its system accepts. *)
Definition fits_callback (h : list event) (e : event) : Prop :=
  match e with
  | EvCall c _ =>
      forall sys, target c = Meth sys "integrate" ->
        exists name ys ps,
          built_from h sys name /\
          initial_values_of c = Some (VList ys) /\ params_of c = Some (VList ps) /\
          accepts name (length ys) (length ps)
  | EvDef _ => True
  end.

(** Events of the helpers: calls without keywords. *)
Definition bare (e : event) : Prop :=
  match e with
  | EvCall c _ => kwargs c = [] /\ quiet e
  | EvDef _ => False
  end.

(** What the comprehension of [lambda exprs] made of [expr]. *)
Definition powsimp_of (h : list event) (expr v : value) : Prop :=
  exists e, EvCall (Call (Meth expr "expand") [] []) (Ok e) ∈ h /\
            EvCall (Call (Fn "sp.powsimp") [e] [("force", VBool true)]) (Ok v) ∈ h.

(* ===================================================================== *)
(** * Properties *)

(** ** The right-hand-side callbacks *)

Example f_decay : f 0%Z [1; 0; 0; 0]%Z [7; 3; 2; 0]%Z = Ok [-7; 7; 0; 0]%Z.
Proof. reflexivity. Qed.

Example f_short_state : f 0%Z [1; 0; 0]%Z [7; 3; 2; 0]%Z = Raise IndexError.
Proof. reflexivity. Qed.

Example vdp1_start : vdp1 0%Z [0; 1]%Z [3]%Z = Ok [1; 3]%Z.
Proof. reflexivity. Qed.

Lemma getitem_lt {X} (l : list X) i : i < length l -> exists v, getitem l i = Ok v.
Proof.
  intros Hi. unfold getitem.
  destruct (lookup_lt_is_Some_2 l i Hi) as [v ->]. eauto.
Qed.

Lemma getitem_ge {X} (l : list X) i : length l <= i -> getitem l i = Raise IndexError.
Proof. intros Hi. unfold getitem. by rewrite lookup_ge_None_2. Qed.

Lemma getitem_raise {X} (l : list X) i e :
  getitem l i = Raise e -> e = IndexError /\ length l <= i.
Proof.
  unfold getitem. destruct (l !! i) eqn:E; [done|].
  intros [= <-]. split; [done|]. by apply lookup_ge_None_1.
Qed.

Lemma mapM_res_length {X Y} (g : X -> res Y) (l : list X) (r : list Y) :
  mapM g l = Ok r -> length r = length l.
Proof.
  revert r. induction l as [|a l IH]; intros r; simpl.
  - by intros [= <-].
  - destruct (g a) as [y|e]; simpl; [|done].
    destruct (mapM g l) as [ys|e]; simpl; [|done].
    intros [= <-]. simpl. f_equal. by apply IH.
Qed.

Lemma mapM_res_ok {X Y} (g : X -> res Y) (l : list X) :
  (forall a, In a l -> exists y, g a = Ok y) -> exists r, mapM g l = Ok r.
Proof.
  induction l as [|a l IH]; intros Hall; simpl.
  - eauto.
  - destruct (Hall a) as [y ->]; [by left|]. simpl.
    destruct IH as [ys ->]; [intros; apply Hall; by right|]. simpl. eauto.
Qed.

Lemma mapM_res_raise {X Y} (g : X -> res Y) (l : list X) a e :
  In a l -> g a = Raise e -> (forall b e', g b = Raise e' -> e' = e) ->
  mapM g l = Raise e.
Proof.
  intros Hin Ha Huniq. induction l as [|b l IH]; [done|]. simpl.
  destruct (g b) as [y|e'] eqn:Eb; simpl.
  - destruct Hin as [->|Hin]; [congruence|].
    rewrite (IH Hin). done.
  - by rewrite (Huniq _ _ Eb).
Qed.

Section CallbackFacts.
Context {A : Type} `{NumLaws A}.
Add Ring A_ring : num_ring.

Lemma f_ok (t : A) (x k : list A) :
  4 <= length x -> 4 <= length k ->
  exists x0 x1 x2 x3 k0 k1 k2 k3,
    x !! 0 = Some x0 /\ x !! 1 = Some x1 /\ x !! 2 = Some x2 /\ x !! 3 = Some x3 /\
    k !! 0 = Some k0 /\ k !! 1 = Some k1 /\ k !! 2 = Some k2 /\ k !! 3 = Some k3 /\
    f t x k = Ok [mul (neg k0) x0; sub (mul k0 x0) (mul k1 x1);
                  sub (mul k1 x1) (mul k2 x2); sub (mul k2 x2) (mul k3 x3)].
Proof.
  intros Hx Hk.
  destruct x as [|x0 [|x1 [|x2 [|x3 x']]]]; simpl in Hx; try lia.
  destruct k as [|k0 [|k1 [|k2 [|k3 k']]]]; simpl in Hk; try lia.
  exists x0, x1, x2, x3, k0, k1, k2, k3. repeat split; reflexivity.
Qed.

Lemma total4 (a b c d : A) : total [a; b; c; d] = add (add (add a b) c) d.
Proof. unfold total. simpl. ring. Qed.

Lemma f_total (t : A) (x k : list A) :
  4 <= length x -> 4 <= length k ->
  exists r x3 k3,
    f t x k = Ok r /\ x !! 3 = Some x3 /\ k !! 3 = Some k3 /\
    total r = mul (neg k3) x3.
Proof.
  intros Hx Hk.
  destruct (f_ok t x k Hx Hk)
    as (x0 & x1 & x2 & x3 & k0 & k1 & k2 & k3 & _ & _ & _ & E3 & _ & _ & _ & K3 & ->).
  eexists _, x3, k3. repeat split; try done.
  rewrite total4. ring.
Qed.

Lemma mul_zero_l (a : A) : mul (neg zero) a = zero.
Proof. ring. Qed.

End CallbackFacts.

Section CallbackShape.
Context {A : Type} `{Num A}.

Lemma f_length (t : A) (x k : list A) r : f t x k = Ok r -> length r = 4.
Proof.
  unfold f, lift1, lift2.
  repeat (match goal with
          | |- context [getitem ?l ?i] => destruct (getitem l i); simpl; try done
          end).
  by intros [= <-].
Qed.

Lemma vdp1_ok (x : A) (y p : list A) :
  2 <= length y -> 1 <= length p -> exists r, vdp1 x y p = Ok r /\ length r = 2.
Proof.
  intros Hy Hp.
  destruct y as [|y0 [|y1 y']]; simpl in Hy; try lia.
  destruct p as [|p0 p']; simpl in Hp; try lia.
  eexists. split; reflexivity.
Qed.

Context `{HasExp A}.

Lemma f2_length (t : A) (x p : list A) r : f2 t x p = Ok r -> length r = length x.
Proof.
  unfold f2, lift1, lift2.
  destruct (getitem p 0); simpl; [|done].
  destruct (getitem p 1); simpl; [|done].
  destruct (getitem p 2); simpl; [|done].
  destruct (getitem x 0) eqn:Ex; simpl; [|done].
  destruct (mapM _ _) as [es|] eqn:Em; simpl; [|done].
  intros [= <-]. simpl. rewrite (mapM_res_length _ _ _ Em), length_seq.
  destruct x; [done|]. simpl. lia.
Qed.

Lemma f2_ok (t : A) (x p : list A) :
  1 <= length x -> length x + 2 <= length p -> exists r, f2 t x p = Ok r.
Proof.
  intros Hx Hp. unfold f2, lift1, lift2.
  destruct (getitem_lt p 0) as [p0 ->]; [lia|].
  destruct (getitem_lt p 1) as [p1 ->]; [lia|].
  destruct (getitem_lt p 2) as [p2 ->]; [lia|].
  destruct (getitem_lt x 0) as [x0 ->]; [lia|]. simpl.
  destruct (mapM_res_ok
    (fun i => x1 ← (x2 ← getitem p (i + 2); y ← getitem x i; Ok (mul x2 y));
              y ← (x2 ← getitem p (i + 3); y ← getitem x (i + 1); Ok (mul x2 y));
              Ok (sub x1 y))
    (seq 0 (length x - 1))) as [es Hes].
  - intros i Hi. apply in_seq in Hi.
    destruct (getitem_lt p (i + 2)) as [a ->]; [lia|].
    destruct (getitem_lt x i) as [b ->]; [lia|].
    destruct (getitem_lt p (i + 3)) as [c ->]; [lia|].
    destruct (getitem_lt x (i + 1)) as [d ->]; [lia|]. simpl. eauto.
  - rewrite Hes. simpl. eauto.
Qed.

End CallbackShape.

(** C3: each right-hand-side callback takes (independent variable, state,
    parameters) and, on a state and parameter vector of the sizes declared
    where its system is constructed (4 and 4 for [f], 2 and 1 for [vdp1],
    3 and 5 for [f2]), returns a list with one entry per dependent
    variable. *)
Theorem callbacks_return_one_derivative_per_variable
    {A : Type} `{Num A} `{HasExp A} (t : A) (x k y p x' p' : list A) :
  length x = f_ny -> length k = f_nparams ->
  length y = vdp1_ny -> length p = vdp1_nparams ->
  length x' = f2_ny -> length p' = f2_nparams ->
  (exists r, f t x k = Ok r /\ length r = f_ny) /\
  (exists r, vdp1 t y p = Ok r /\ length r = vdp1_ny) /\
  (exists r, f2 t x' p' = Ok r /\ length r = f2_ny).
Proof.
  unfold f_ny, f_nparams, vdp1_ny, vdp1_nparams, f2_ny, f2_nparams.
  intros Hx Hk Hy Hp Hx' Hp'. split; [|split].
  - destruct x as [|x0 [|x1 [|x2 [|x3 [|]]]]]; try discriminate Hx.
    destruct k as [|k0 [|k1 [|k2 [|k3 [|]]]]]; try discriminate Hk.
    eexists. split; reflexivity.
  - apply vdp1_ok; lia.
  - destruct (f2_ok t x' p') as [r Hr]; [lia..|].
    exists r. split; [done|]. rewrite (f2_length _ _ _ _ Hr). done.
Qed.

Lemma callbacks_return_one_derivative_per_variable_witness :
  (exists r, f 0%R [1; 0; 0; 0]%R [7; 3; 2; 0]%R = Ok r /\ length r = f_ny) /\
  (exists r, vdp1 0%R [0; 1]%R [2.5]%R = Ok r /\ length r = vdp1_ny) /\
  (exists r, f2 0%R [1; 2; 3]%R [1; 7; 3; 2; 1]%R = Ok r /\ length r = f2_ny).
Proof.
  apply (callbacks_return_one_derivative_per_variable (A := R)); reflexivity.
Defined.

(** In binary64 the components of [f] need not add up to zero for the
    notebook's rates [k = [7, 3, 2, 0]]: on the state [[0.1, 0.7, 0.3, 0.2]]
    the sum is [-1.1102230246251565e-16].  The entries of the state are
    written as the floats that Python reads these decimals as. *)
Lemma f_sum_not_zero_in_binary64 :
  ~ (forall x : list float,
       4 <= length x ->
       exists r, f 0%float x [7; 3; 2; 0]%float = Ok r /\ total r = 0%float).
Proof.
  intros Hall.
  destruct (Hall [0x1.999999999999ap-4; 0x1.6666666666666p-1;
                  0x1.3333333333333p-2; 0x1.999999999999ap-3]%float)
    as (r & Hr & Hsum); [simpl; lia|].
  vm_compute in Hr. injection Hr as <-.
  apply (f_equal (fun v => PrimFloat.eqb v 0%float)) in Hsum.
  vm_compute in Hsum. discriminate Hsum.
Qed.

(** C8, amended: in exact arithmetic (a commutative ring: Python's ints and
    Fractions, sympy expressions) the four components of [f(t, x, k)] add
    up to [-k[3]*x[3]]; with a last rate of zero, as in the notebook's
    [k = [7, 3, 2, 0]], they add up to zero. *)
Theorem f_components_sum {A : Type} `{NumLaws A} (t : A) (x k : list A) :
  4 <= length x -> 4 <= length k ->
  (exists r x3 k3,
     f t x k = Ok r /\ x !! 3 = Some x3 /\ k !! 3 = Some k3 /\
     total r = mul (neg k3) x3) /\
  (k !! 3 = Some zero -> exists r, f t x k = Ok r /\ total r = zero) /\
  Transformations.k !! 3 = Some 0%Z.
Proof.
  intros Hx Hk.
  destruct (f_total t x k Hx Hk) as (r & x3 & k3 & Hr & E3 & K3 & Hsum).
  split; [|split].
  - by exists r, x3, k3.
  - intros K0. exists r. split; [done|].
    rewrite Hsum. assert (k3 = zero) as -> by congruence. apply mul_zero_l.
  - reflexivity.
Qed.

Lemma f_components_sum_witness :
  4 <= length [1; 0; 0; 0]%Z /\ 4 <= length Transformations.k /\
  exists r, f 0%Z [1; 0; 0; 0]%Z Transformations.k = Ok r /\ total r = 0%Z.
Proof.
  assert (Hx : 4 <= length [1; 0; 0; 0]%Z) by (simpl; lia).
  assert (Hk : 4 <= length Transformations.k) by (simpl; lia).
  split; [exact Hx|]. split; [exact Hk|].
  exact (proj1 (proj2 (f_components_sum 0%Z [1; 0; 0; 0]%Z Transformations.k Hx Hk))
               eq_refl).
Defined.

Lemma exp_minus_one_lt_one : (exp (Ropp 1 * 1) < exp (Ropp 1 * 0))%R.
Proof. apply exp_increasing. lra. Qed.

(** C10: [f] and [vdp1] ignore the independent variable; [f2] does not
    (over the reals, with the exponential for [sp.exp]). *)
Theorem only_f2_depends_on_independent_variable :
  (forall (A : Type) (N : Num A) (t1 t2 : A) (x k : list A), f t1 x k = f t2 x k) /\
  (forall (A : Type) (N : Num A) (t1 t2 : A) (y p : list A), vdp1 t1 y p = vdp1 t2 y p) /\
  (exists (t1 t2 : R) (x p : list R), f2 t1 x p <> f2 t2 x p).
Proof.
  split; [|split]; [reflexivity..|].
  exists 0%R, 1%R, [0%R], [1%R; 1%R; 0%R].
  unfold f2, lift1, lift2. simpl.
  intros [= E]. unfold sp_exp, R_HasExp in E.
  pose proof exp_minus_one_lt_one. lra.
Qed.

(** ** Exceptions propagate *)

Lemma clean_nil : clean [].
Proof. intros c e Hin. by apply elem_of_nil in Hin. Qed.

Lemma clean_app evs1 evs2 : clean evs1 -> clean evs2 -> clean (evs1 ++ evs2).
Proof.
  intros H1 H2 c e Hin. apply elem_of_app in Hin as [Hin|Hin]; [by apply H1 in Hin|by apply H2 in Hin].
Qed.

Lemma clean_ok c v : clean [EvCall c (Ok v)].
Proof. intros c' e Hin. apply list_elem_of_singleton in Hin. discriminate. Qed.

Lemma clean_def n : clean [EvDef n].
Proof. intros c' e Hin. apply list_elem_of_singleton in Hin. discriminate. Qed.

Lemma propagated_call c (r : res value) : propagated r [EvCall c r].
Proof.
  destruct r as [v|e]; simpl; [apply clean_ok|].
  right. exists [], c. split; [done|apply clean_nil].
Qed.

Lemma propagated_raise_in {X} (r : res X) evs c e :
  propagated r evs -> EvCall c (Raise e) ∈ evs ->
  r = Raise e /\ exists evs0, evs = evs0 ++ [EvCall c (Raise e)] /\ clean evs0.
Proof.
  destruct r as [x|e']; simpl.
  - intros Hc Hin. by apply Hc in Hin.
  - intros [Hc|(evs0 & c' & -> & Hc)] Hin; [by apply Hc in Hin|].
    apply elem_of_app in Hin as [Hin|Hin]; [by apply Hc in Hin|].
    apply list_elem_of_singleton in Hin. injection Hin as <- <-. eauto.
Qed.

Lemma events_of_app {World X} (m : Py World X) s evs :
  trace (m s).2 = trace s ++ evs -> events_of m s = evs.
Proof. intros E. unfold events_of. rewrite E. by rewrite drop_app_length. Qed.

Section Faithful.
Context {World : Type} `{Library World}.

Lemma faithful_ret {X} (x : X) : faithful (mret x : Py World X).
Proof. intros s. exists []. simpl. rewrite app_nil_r. split; [done|apply clean_nil]. Qed.

Lemma faithful_raise {X} e : faithful (raise e : Py World X).
Proof. intros s. exists []. simpl. rewrite app_nil_r. split; [done|]. left. apply clean_nil. Qed.

Lemma faithful_lift_res {X} (r : res X) : faithful (lift_res r : Py World X).
Proof.
  intros s. exists []. simpl. rewrite app_nil_r. split; [done|].
  destruct r; simpl; [|left]; apply clean_nil.
Qed.

Lemma faithful_get_dict l : faithful (get_dict l : Py World _).
Proof. intros s. exists []. simpl. rewrite app_nil_r. split; [done|apply clean_nil]. Qed.

Lemma faithful_bind {X Y} (m : Py World X) (k : X -> Py World Y) :
  faithful m -> (forall x, faithful (k x)) -> faithful (m ≫= k).
Proof.
  intros Hm Hk s. destruct (Hm s) as (evs1 & E1 & P1).
  unfold mbind, Py_bind. destruct (m s) as [[x|e] s1]; simpl in *.
  - destruct (Hk x s1) as (evs2 & E2 & P2).
    exists (evs1 ++ evs2). rewrite E2, E1, app_assoc. split; [done|].
    destruct (k x s1).1 as [y|e]; simpl in *.
    + by apply clean_app.
    + destruct P2 as [P2|(evs0 & c & -> & P2)].
      * left. by apply clean_app.
      * right. exists (evs1 ++ evs0), c. rewrite app_assoc. split; [done|by apply clean_app].
  - exists evs1. done.
Qed.

Lemma faithful_call_lib c : faithful (call_lib c).
Proof.
  intros s. exists [EvCall c (call_lib c s).1]. unfold call_lib.
  destruct (lib c (heap s) (world s)) as [[r h] w]. simpl. split; [done|].
  apply propagated_call.
Qed.

Lemma faithful_call_arr c : faithful (call_arr c).
Proof.
  intros s. exists [EvCall c (call_arr c s).1]. unfold call_arr.
  destruct (arr c (world s)) as [r w]. simpl. split; [done|].
  apply propagated_call.
Qed.

Lemma faithful_define n : faithful (define n : Py World _).
Proof. intros s. exists [EvDef n]. simpl. split; [done|apply clean_def]. Qed.

Lemma faithful_dict_pop d key dflt : faithful (dict_pop d key dflt).
Proof.
  destruct d; try apply faithful_call_lib.
  intros s. unfold dict_pop.
  destruct (default ∅ (heap s !! l) !! key) as [v|]; [|destruct dflt as [v|]]; simpl;
    eexists; (split; [reflexivity|]); try apply clean_ok.
  right. eexists [], _. split; [done|apply clean_nil].
Qed.

Lemma faithful_iter_reply r : faithful (iter_reply r : Py World _).
Proof. destruct r; first [apply faithful_ret | apply faithful_raise]. Qed.

Lemma faithful_len_reply r : faithful (len_reply r : Py World _).
Proof.
  destruct r; try apply faithful_raise. simpl.
  repeat case_match; first [apply faithful_ret | apply faithful_raise].
Qed.

Lemma faithful_iterate v : faithful (iterate v).
Proof.
  destruct v; simpl;
    first [ apply faithful_ret | apply faithful_raise
          | apply faithful_bind;
            [first [apply faithful_call_arr | apply faithful_get_dict]
            |intros; first [apply faithful_iter_reply | apply faithful_ret]] ].
Qed.

Lemma faithful_unpack2 v : faithful (unpack2 v).
Proof.
  apply faithful_bind; [apply faithful_iterate|].
  intros [|a [|b [|c vs]]]; first [apply faithful_ret | apply faithful_raise].
Qed.

Lemma faithful_unpack3 v : faithful (unpack3 v).
Proof.
  apply faithful_bind; [apply faithful_iterate|].
  intros [|a [|b [|c [|d vs]]]]; first [apply faithful_ret | apply faithful_raise].
Qed.

Lemma faithful_py_len v : faithful (py_len v).
Proof.
  destruct v; simpl;
    first [ apply faithful_ret | apply faithful_raise
          | apply faithful_bind;
            [first [apply faithful_call_arr | apply faithful_get_dict]
            |intros; first [apply faithful_len_reply | apply faithful_ret]] ].
Qed.

Lemma faithful_py_add a b : faithful (py_add a b).
Proof. destruct a, b; simpl; first [apply faithful_ret | apply faithful_call_arr]. Qed.

Lemma faithful_for_each {X} (xs : list X) (body : X -> Py World unit) :
  (forall x, faithful (body x)) -> faithful (for_each xs body).
Proof.
  intros Hbody. induction xs as [|x xs IH]; simpl.
  - apply faithful_ret.
  - apply faithful_bind; [apply Hbody|]. intros _. apply IH.
Qed.

Lemma faithful_fn n a kw : faithful (fn n a kw).
Proof. apply faithful_call_lib. Qed.
Lemma faithful_meth v n a kw : faithful (meth v n a kw).
Proof. apply faithful_call_lib. Qed.
Lemma faithful_attr v n : faithful (attr v n).
Proof. apply faithful_call_lib. Qed.
Lemma faithful_np n a kw : faithful (np n a kw).
Proof. apply faithful_call_arr. Qed.
Lemma faithful_op n a : faithful (op n a).
Proof. apply faithful_call_arr. Qed.

End Faithful.

Create HintDb faithful.
#[export] Hint Resolve faithful_ret faithful_raise faithful_lift_res faithful_call_lib
  faithful_call_arr faithful_define faithful_dict_pop faithful_iterate faithful_unpack2
  faithful_unpack3 faithful_py_len faithful_py_add faithful_fn faithful_meth faithful_attr
  faithful_np faithful_op : faithful.

(** Walks a [do]-block: one bind at a time, both arms of a conditional, the
    body of a loop. *)
Ltac faithful_block :=
  repeat first
    [ progress auto with faithful
    | apply faithful_bind; [|intros ?]
    | apply faithful_for_each; intros [? ?]
    | match goal with
      | |- faithful (if ?b then _ else _) => destruct b
      | |- faithful (let '(_, _) := ?x in _) => destruct x
      | |- faithful (match ?x with (_, _) => _ end) => destruct x
      end ].

Section FaithfulFunctions.
Context {World : Type} `{Library World}.

Lemma rmsd_faithful x : faithful (Transformations.rmsd x).
Proof. unfold Transformations.rmsd. faithful_block. Qed.

Lemma integrate_and_plot_faithful odesys integrator tout y0 k interpolate stiffness kwargs :
  faithful (Transformations.integrate_and_plot odesys integrator tout y0 k
              interpolate stiffness kwargs).
Proof.
  unfold Transformations.integrate_and_plot. pose proof rmsd_faithful.
  faithful_block.
Qed.

Lemma solve_and_plot_faithful odesys1 sparse roots nderiv interpolate kwargs :
  faithful (VanDerPol.solve_and_plot odesys1 sparse roots nderiv interpolate kwargs).
Proof. unfold VanDerPol.solve_and_plot. faithful_block. Qed.

End FaithfulFunctions.

Section CallbackErrors.
Context {A : Type} `{Num A}.

Lemma f_raise (t : A) (x k : list A) :
  length x < 4 \/ length k < 4 -> f t x k = Raise IndexError.
Proof.
  intros Hlen.
  destruct x as [|x0 [|x1 [|x2 [|x3 x']]]]; destruct k as [|k0 [|k1 [|k2 [|k3 k']]]];
    simpl in Hlen; try reflexivity; lia.
Qed.

Lemma vdp1_raise (t : A) (y p : list A) :
  length y < 2 \/ length p < 1 -> vdp1 t y p = Raise IndexError.
Proof.
  intros Hlen.
  destruct y as [|y0 [|y1 y']]; destruct p as [|p0 p'];
    simpl in Hlen; try reflexivity; lia.
Qed.

Context `{HasExp A}.

Lemma f2_raise (t : A) (x p : list A) :
  length x < 1 \/ length p < length x + 2 -> f2 t x p = Raise IndexError.
Proof.
  intros Hlen. unfold f2, lift1, lift2.
  destruct (le_lt_dec (length p) 0) as [Hp0|Hp0]; [by rewrite (getitem_ge p 0)|].
  destruct (getitem_lt p 0 Hp0) as [p0 ->]. simpl.
  destruct (le_lt_dec (length p) 1) as [Hp1|Hp1]; [by rewrite (getitem_ge p 1)|].
  destruct (getitem_lt p 1 Hp1) as [p1 ->]. simpl.
  destruct (le_lt_dec (length p) 2) as [Hp2|Hp2]; [by rewrite (getitem_ge p 2)|].
  destruct (getitem_lt p 2 Hp2) as [p2 ->]. simpl.
  destruct (le_lt_dec (length x) 0) as [Hx0|Hx0]; [by rewrite (getitem_ge x 0)|].
  destruct (getitem_lt x 0 Hx0) as [x0 ->]. simpl.
  rewrite (mapM_res_raise _ _ (length p - 3) IndexError); [done| | |].
  - apply in_seq. lia.
  - destruct (getitem_lt p (length p - 3 + 2)) as [a ->]; [lia|].
    destruct (getitem_lt x (length p - 3)) as [b ->]; [lia|]. simpl.
    rewrite (getitem_ge p (length p - 3 + 3)); [done|lia].
  - intros i e'.
    repeat (match goal with
            | |- context [getitem ?l ?j] =>
                let E := fresh in
                destruct (getitem l j) eqn:E; simpl;
                [|apply getitem_raise in E as [-> _]; congruence]
            end).
    done.
Qed.

End CallbackErrors.

(** C6: no function of the notebooks handles an exception.  An index lookup
    that raises inside [f], [vdp1] or [f2] makes the callback raise the same
    exception; a call that raises inside [rmsd], [integrate_and_plot] or
    [solve_and_plot] makes the function raise the same exception. *)
Theorem errors_propagate_unchanged
    {World : Type} `{Library World} {A : Type} `{Num A} `{HasExp A} :
  (forall (t : A) x k i e, i < 4 ->
     getitem x i = Raise e \/ getitem k i = Raise e -> f t x k = Raise e) /\
  (forall (t : A) y p i e, i < 2 ->
     getitem y i = Raise e \/ getitem p 0 = Raise e -> vdp1 t y p = Raise e) /\
  (forall (t : A) x p i e,
     (i < 3 /\ getitem p i = Raise e) \/ getitem x 0 = Raise e \/
     (i < length x - 1 /\
      (getitem p (i + 2) = Raise e \/ getitem x i = Raise e \/
       getitem p (i + 3) = Raise e \/ getitem x (i + 1) = Raise e)) ->
     f2 t x p = Raise e) /\
  (forall x s c e,
     EvCall c (Raise e) ∈ events_of (Transformations.rmsd x) s ->
     (Transformations.rmsd x s).1 = Raise e) /\
  (forall odesys integrator tout y0 k interpolate stiffness kwargs s c e,
     let m := Transformations.integrate_and_plot odesys integrator tout y0 k
                interpolate stiffness kwargs in
     EvCall c (Raise e) ∈ events_of m s -> (m s).1 = Raise e) /\
  (forall odesys1 sparse roots nderiv interpolate kwargs s c e,
     let m := VanDerPol.solve_and_plot odesys1 sparse roots nderiv interpolate kwargs in
     EvCall c (Raise e) ∈ events_of m s -> (m s).1 = Raise e).
Proof.
  assert (Hrun : forall X (m : Py World X), faithful m ->
            forall s c e, EvCall c (Raise e) ∈ events_of m s -> (m s).1 = Raise e).
  { intros X m Hm s c e Hin. destruct (Hm s) as (evs & E & Hp).
    rewrite (events_of_app _ _ _ E) in Hin.
    by destruct (propagated_raise_in _ _ _ _ Hp Hin). }
  repeat split.
  - intros t x k i e Hi [E|E]; apply getitem_raise in E as [-> Hlen];
      apply f_raise; lia.
  - intros t y p i e Hi [E|E]; apply getitem_raise in E as [-> Hlen];
      apply vdp1_raise; lia.
  - intros t x p i e Hcase.
    destruct Hcase as [[Hi E]|[E|[Hi [E|[E|[E|E]]]]]];
      apply getitem_raise in E as [-> Hlen]; apply f2_raise; lia.
  - intros x s c e. apply Hrun, rmsd_faithful.
  - intros ? ? ? ? ? ? ? ? s c e m. apply Hrun, integrate_and_plot_faithful.
  - intros ? ? ? ? ? ? s c e m. apply Hrun, solve_and_plot_faithful.
Qed.

Lemma errors_propagate_unchanged_witness :
  f 0%R [1; 0; 0]%R [7; 3; 2; 0]%R = Raise IndexError /\
  (Transformations.integrate_and_plot (H := failing "plt.subplot") (VObj 0) (VStr "cvode")
     (VNum 1) (VList []) (VList []) false false [] (State ∅ 1 [])).1
  = Raise (LibraryError "plt.subplot").
Proof.
  pose proof (errors_propagate_unchanged (H := failing "plt.subplot") (A := R))
    as (Hf & _ & _ & _ & Hi & _).
  split.
  - apply (Hf 0%R [1; 0; 0]%R [7; 3; 2; 0]%R 3 IndexError); [lia|]. left. reflexivity.
  - apply (Hi (VObj 0) (VStr "cvode") (VNum 1) (VList []) (VList []) false false []
              (State ∅ 1 [])
              (Call (Fn "plt.subplot") [num 1; num 2; num 1] [])).
    apply list_elem_of_lookup. exists 2. vm_compute. reflexivity.
Defined.



(** ** Stepping through a [do]-block *)

Lemma steps_ok_nil P : steps_ok P [].
Proof. intros pre e post E. by destruct pre. Qed.

Lemma steps_ok_snoc P tr e : steps_ok P tr -> P tr e -> steps_ok P (tr ++ [e]).
Proof.
  intros Htr He pre e' post E.
  destruct post as [|x post _] using rev_ind.
  - apply app_inj_tail in E as [-> ->]. done.
  - rewrite app_comm_cons, app_assoc in E. apply app_inj_tail in E as [E _].
    by apply (Htr pre e' post).
Qed.

Lemma steps_ok_app P tr evs :
  steps_ok P tr -> Forall (fun e => forall h, P h e) evs -> steps_ok P (tr ++ evs).
Proof.
  intros Htr Hevs. induction evs as [|e evs IH] using rev_ind.
  - by rewrite app_nil_r.
  - apply Forall_app in Hevs as [Hevs He]. rewrite app_assoc.
    apply steps_ok_snoc; [by apply IH|]. by apply Forall_inv in He.
Qed.

Lemma steps_ok_mono (P P' : list event -> event -> Prop) tr :
  (forall h e, P h e -> P' h e) -> steps_ok P tr -> steps_ok P' tr.
Proof. intros HP Htr pre e post E. apply HP. by apply (Htr pre e post). Qed.

Lemma steps_ok_elem P tr e :
  steps_ok P tr -> e ∈ tr -> exists pre post, tr = pre ++ e :: post /\ P pre e.
Proof.
  intros Htr Hin. apply list_elem_of_split in Hin as (pre & post & ->).
  exists pre, post. split; [done|]. by apply (Htr pre e post).
Qed.

Lemma quiet_well_formed h e : quiet e -> well_formed h e.
Proof.
  destruct e as [n|[t a kw] r]; simpl; [done|].
  unfold well_formed, in_order, integration_request, takes_callback, constructs,
    calls_fn, calls_method. simpl.
  destruct t as [name| | |]; try done.
  all: try (intros [-> | ->]; simpl); repeat split; intros; discriminate.
Qed.

Lemma asks_quiet e : asks e -> quiet e.
Proof. destruct e as [n|[[] a kw] r]; simpl; done. Qed.

Lemma asks_well_formed h e : asks e -> well_formed h e.
Proof. intros Ha. by apply quiet_well_formed, asks_quiet. Qed.

Section WpRules.
Context {World : Type} `{Library World}.
Implicit Types (h : gmap nat (gmap string value)) (w : World) (tr : list event).

Lemma wp_ret {X} (x : X) (Q : res X -> state World -> Prop) s :
  Q (Ok x) s -> wp (mret x) Q s.
Proof. done. Qed.

Lemma wp_raise {X} e (Q : res X -> state World -> Prop) s :
  Q (Raise e) s -> wp (raise e) Q s.
Proof. done. Qed.

Lemma wp_lift_res {X} (r : res X) (Q : res X -> state World -> Prop) s :
  Q r s -> wp (lift_res r) Q s.
Proof. done. Qed.

Lemma wp_bind {X Y} (m : Py World X) (k : X -> Py World Y) Q s :
  wp m (fun r s' => match r with
                    | Ok x => wp (k x) Q s'
                    | Raise e => Q (Raise e) s'
                    end) s ->
  wp (m ≫= k) Q s.
Proof. unfold wp, mbind, Py_bind. by destruct (m s) as [[x|e] s']. Qed.

Lemma wp_mono {X} (m : Py World X) (Q Q' : res X -> state World -> Prop) s :
  wp m Q s -> (forall r s', Q r s' -> Q' r s') -> wp m Q' s.
Proof. unfold wp. auto. Qed.

Lemma wp_lib c (Q : res value -> state World -> Prop) h w tr :
  (forall r h' w', Q r (State h' w' (tr ++ [EvCall c r]))) ->
  wp (call_lib c) Q (State h w tr).
Proof. intros HQ. unfold wp, call_lib. simpl. destruct (lib c h w) as [[r h'] w']. apply HQ. Qed.

Lemma wp_arr c (Q : res value -> state World -> Prop) h w tr :
  (forall r w', Q r (State h w' (tr ++ [EvCall c r]))) ->
  wp (call_arr c) Q (State h w tr).
Proof. intros HQ. unfold wp, call_arr. simpl. destruct (arr c w) as [r w']. apply HQ. Qed.

Lemma wp_define n (Q : res value -> state World -> Prop) h w tr :
  Q (Ok (VFun n)) (State h w (tr ++ [EvDef n])) -> wp (define n) Q (State h w tr).
Proof. done. Qed.

(** [pop] on any value, when the dict's contents do not matter. *)
Lemma wp_pop d key dflt (Q : res value -> state World -> Prop) h w tr :
  (forall r h' w',
     Q r (State h' w' (tr ++ [EvCall (Call (Meth d "pop") (VStr key :: option_list dflt) []) r]))) ->
  wp (dict_pop d key dflt) Q (State h w tr).
Proof.
  intros HQ. destruct d; try by apply wp_lib.
  unfold wp, dict_pop. simpl.
  destruct (default ∅ (h !! l) !! key); [|destruct dflt]; apply HQ.
Qed.

(** [pop] on a dict object. *)
Lemma wp_pop_dict l key dflt (Q : res value -> state World -> Prop) h w tr :
  let c := Call (Meth (VDict l) "pop") (VStr key :: option_list dflt) [] in
  let m := default ∅ (h !! l) in
  (forall v, m !! key = Some v ->
     Q (Ok v) (State (<[l := delete key m]> h) w (tr ++ [EvCall c (Ok v)]))) ->
  (m !! key = None ->
     match dflt with
     | Some v => Q (Ok v) (State h w (tr ++ [EvCall c (Ok v)]))
     | None => Q (Raise (KeyError key)) (State h w (tr ++ [EvCall c (Raise (KeyError key))]))
     end) ->
  wp (dict_pop (VDict l) key dflt) Q (State h w tr).
Proof.
  intros c m Hsome Hnone. unfold wp, dict_pop. simpl. fold m.
  destruct (m !! key) as [v|]; [by apply Hsome|].
  specialize (Hnone eq_refl). by destruct dflt.
Qed.

Lemma wp_quietly {X} φ (m : Py World X) Φ (Q : res X -> state World -> Prop) h w tr :
  quietly φ m Φ ->
  (forall r w' evs, Forall φ evs -> (forall x, r = Ok x -> Φ x (tr ++ evs)) ->
     Q r (State h w' (tr ++ evs))) ->
  wp m Q (State h w tr).
Proof.
  intros Hm HQ. destruct (Hm h w tr) as (w' & evs & E & Hq & HΦ).
  unfold wp. rewrite E. by apply HQ.
Qed.

End WpRules.

(** ** The helpers are quiet *)

Section Quiet.
Context {World : Type} `{Library World}.
Variable φ : event -> Prop.

Lemma quietly_ret {X} (x : X) (Φ : X -> list event -> Prop) :
  (forall tr, Φ x tr) -> quietly φ (mret x : Py World X) Φ.
Proof.
  intros HΦ h w tr. exists w, []. rewrite app_nil_r. simpl.
  repeat split; [constructor|]. by intros ? [= <-].
Qed.

Lemma quietly_raise {X} e (Φ : X -> list event -> Prop) :
  quietly φ (raise e : Py World X) Φ.
Proof. intros h w tr. exists w, []. rewrite app_nil_r. simpl. repeat split; [constructor|done]. Qed.

Lemma quietly_arr c (Φ : value -> list event -> Prop) :
  (forall r, φ (EvCall c r)) ->
  (forall v tr, Φ v (tr ++ [EvCall c (Ok v)])) ->
  quietly φ (call_arr c) Φ.
Proof.
  intros Hq HΦ h w tr. unfold call_arr. simpl.
  destruct (arr c w) as [r w']. exists w', [EvCall c r]. simpl.
  repeat split; [by repeat constructor|]. intros ? ->. apply HΦ.
Qed.

Lemma quietly_then {X Y} (m : Py World X) (k : X -> Py World Y) Ψ Φ :
  quietly φ m Ψ ->
  (forall x, quietly φ (k x) (fun y tr' => forall tr, Ψ x tr -> tr `prefix_of` tr' -> Φ y tr')) ->
  quietly φ (m ≫= k) Φ.
Proof.
  intros Hm Hk h w tr. destruct (Hm h w tr) as (w1 & evs1 & E1 & Q1 & P1).
  unfold mbind, Py_bind. destruct (m (State h w tr)) as [[x|e] s1]; simpl in *; subst s1.
  - destruct (Hk x h w1 (tr ++ evs1)) as (w2 & evs2 & E2 & Q2 & P2).
    exists w2, (evs1 ++ evs2). rewrite E2, app_assoc.
    repeat split; [by apply Forall_app|].
    intros y Hy. apply (P2 y Hy (tr ++ evs1)); [by apply P1|by apply prefix_app_r].
  - exists w1, evs1. done.
Qed.

Lemma quietly_weaken {X} (m : Py World X) (Φ Φ' : X -> list event -> Prop) :
  quietly φ m Φ -> (forall x tr, Φ x tr -> Φ' x tr) -> quietly φ m Φ'.
Proof.
  intros Hm HΦ h w tr. destruct (Hm h w tr) as (w' & evs & E & Hq & HP).
  exists w', evs. repeat split; [done..|]. intros x Hx. by apply HΦ, HP.
Qed.

Lemma quietly_seq {X Y} (m : Py World X) (k : X -> Py World Y) Ψ :
  quietly φ m Ψ ->
  (forall x, quietly φ (k x) (fun _ _ => True)) ->
  quietly φ (m ≫= k) (fun _ _ => True).
Proof.
  intros Hm Hk. eapply quietly_then; [exact Hm|].
  intros x. eapply quietly_weaken; [apply Hk|done].
Qed.

Lemma quietly_skip {X Y} (m : Py World X) (k : X -> Py World Y) Ψ Φ :
  quietly φ m Ψ -> (forall x, quietly φ (k x) Φ) -> quietly φ (m ≫= k) Φ.
Proof.
  intros Hm Hk. eapply quietly_then; [exact Hm|].
  intros x. eapply quietly_weaken; [apply Hk|]. intros y tr' HΦ tr _ _. exact HΦ.
Qed.

Lemma quietly_get_dict l :
  quietly φ (get_dict l : Py World _) (fun _ _ => True).
Proof.
  intros h w tr. exists w, []. rewrite app_nil_r. simpl. repeat split. constructor.
Qed.

Lemma quietly_len_reply r : quietly φ (len_reply r : Py World _) (fun _ _ => True).
Proof.
  destruct r; simpl; try apply quietly_raise.
  repeat case_match; first [apply quietly_raise | by apply quietly_ret].
Qed.

End Quiet.

Lemma quietly_events {World X} (φ φ' : event -> Prop) (m : Py World X) Φ :
  (forall e, φ e -> φ' e) -> quietly φ m Φ -> quietly φ' m Φ.
Proof.
  intros Hφ Hm h w tr. destruct (Hm h w tr) as (w' & evs & E & Hq & HP).
  exists w', evs. repeat split; [done| |done]. eapply Forall_impl; [exact Hq|done].
Qed.

Lemma elements_of_mono tr evs v vs :
  elements_of tr v vs -> elements_of (tr ++ evs) v vs.
Proof.
  unfold elements_of. intros [?|[?|[?|[?|Hin]]]]; eauto 6.
  do 4 right. apply elem_of_app. by left.
Qed.

Lemma elements_of_prefix tr tr' v vs :
  elements_of tr v vs -> tr `prefix_of` tr' -> elements_of tr' v vs.
Proof. intros Hel [evs ->]. by apply elements_of_mono. Qed.

Section QuietHelpers.
Context {World : Type} `{Library World}.

Lemma quietly_iter_reply v r :
  quietly asks (iter_reply r : Py World _)
    (fun vs tr' => forall tr, EvCall (Call (Op "iter") [v] []) (Ok r) ∈ tr ->
                              tr `prefix_of` tr' -> elements_of tr' v vs).
Proof.
  destruct r; simpl; try apply quietly_raise.
  apply quietly_ret. intros tr' tr Hin [evs ->]. do 4 right.
  apply elem_of_app. by left.
Qed.

Lemma quietly_iterate v : quietly asks (iterate v) (fun vs tr' => elements_of tr' v vs).
Proof.
  destruct v; simpl; try apply quietly_raise.
  - apply quietly_ret. intros tr. right. right. left. eauto.
  - apply quietly_ret. intros tr. by left.
  - apply quietly_ret. intros tr. right. by left.
  - eapply quietly_then; [|intros r; apply quietly_iter_reply].
    apply quietly_arr; [intros r; simpl; auto|].
    intros v tr. apply elem_of_app. right. by apply list_elem_of_singleton.
  - eapply quietly_then; [|intros r; apply quietly_iter_reply].
    apply quietly_arr; [intros r; simpl; auto|].
    intros v tr. apply elem_of_app. right. by apply list_elem_of_singleton.
  - intros h w tr. exists w, []. rewrite app_nil_r. simpl.
    repeat split; [constructor|]. intros vs [= <-]. do 3 right. left. eauto.
Qed.

Lemma quietly_unpack2 v :
  quietly asks (unpack2 v) (fun '(a, b) tr' => elements_of tr' v [a; b]).
Proof.
  eapply quietly_then; [apply quietly_iterate|].
  intros [|a [|b [|c vs]]]; simpl; try apply quietly_raise.
  apply quietly_ret. intros tr' tr Hel Hpre. by eapply elements_of_prefix.
Qed.

Lemma quietly_unpack3 v :
  quietly asks (unpack3 v) (fun '(a, b, c) tr' => elements_of tr' v [a; b; c]).
Proof.
  eapply quietly_then; [apply quietly_iterate|].
  intros [|a [|b [|c [|d vs]]]]; simpl; try apply quietly_raise.
  apply quietly_ret. intros tr' tr Hel Hpre. by eapply elements_of_prefix.
Qed.

Lemma quietly_py_len v : quietly asks (py_len v) (fun _ _ => True).
Proof.
  destruct v; simpl; try apply quietly_raise; try by apply quietly_ret.
  - eapply quietly_seq; [|apply quietly_len_reply].
    apply (quietly_arr _ _ (fun _ _ => True)); [intros r; simpl; auto|done].
  - eapply quietly_seq; [|apply quietly_len_reply].
    apply (quietly_arr _ _ (fun _ _ => True)); [intros r; simpl; auto|done].
  - eapply quietly_seq; [apply quietly_get_dict|]. intros m. by apply quietly_ret.
Qed.

Lemma quietly_py_add a b : quietly asks (py_add a b) (fun _ _ => True).
Proof.
  destruct a, b; simpl;
    first [ by apply quietly_ret
          | apply (quietly_arr _ _ (fun _ _ => True)); [intros r; simpl; auto|done] ].
Qed.

Lemma quietly_py_tuple v : quietly asks (VanDerPol.py_tuple v) (fun _ _ => True).
Proof.
  eapply quietly_seq; [apply quietly_iterate|]. intros vs. by apply quietly_ret.
Qed.

Lemma quietly_rmsd x : quietly quiet (Transformations.rmsd x) (fun _ _ => True).
Proof.
  unfold Transformations.rmsd, np, op.
  eapply quietly_seq; [eapply quietly_events; [apply asks_quiet|apply quietly_py_len]|].
  intros n.
  repeat (eapply quietly_seq;
          [apply (quietly_arr _ _ (fun _ _ => True)); [intros r; simpl; auto|done]|];
          intros ?).
  apply (quietly_arr _ _ (fun _ _ => True)); [intros r; simpl; auto|done].
Qed.

(** What [rmsd] returns is what the last numpy call, [... ** 0.5],
    returned. *)
Lemma quietly_rmsd_result x :
  quietly quiet (Transformations.rmsd x)
    (fun v tr' => exists sm, EvCall (Call (Op "**") [sm; VNum 0.5] []) (Ok v) ∈ tr').
Proof.
  unfold Transformations.rmsd, np, op.
  eapply quietly_skip; [eapply quietly_events; [apply asks_quiet|apply quietly_py_len]|].
  intros n.
  repeat (eapply quietly_skip;
          [apply (quietly_arr _ _ (fun _ _ => True)); [intros r; simpl; auto|done]|];
          intros ?).
  apply quietly_arr; [intros r; simpl; auto|].
  intros v tr. eexists. apply elem_of_app. right. by apply list_elem_of_singleton.
Qed.

End QuietHelpers.

(** ** Keeping a step property through a block *)

Section Kept.
Context {World : Type} `{Library World}.
Variable P : list event -> event -> Prop.
Variable I : gmap nat (gmap string value) -> Prop.
Implicit Types (h : gmap nat (gmap string value)) (w : World) (tr : list event).

Lemma wp_assoc {X Y Z} (m : Py World X) (k1 : X -> Py World Y) (k : Y -> Py World Z) Q s :
  wp (m ≫= (fun x => k1 x ≫= k)) Q s -> wp ((m ≫= k1) ≫= k) Q s.
Proof.
  unfold wp, mbind, Py_bind. destruct (m s) as [[x|e] s1]; [|done].
  by destruct (k1 x s1) as [[y|e] s2].
Qed.

Lemma wp_ret_bind {X Y} (x : X) (k : X -> Py World Y) Q s :
  wp (k x) Q s -> wp (mret x ≫= k) Q s.
Proof. done. Qed.

Lemma kept_ret {X} (x : X) tr0 h w tr :
  steps_ok P tr -> I h -> tr0 `prefix_of` tr ->
  wp (mret x) (kept P I tr0) (State h w tr).
Proof. done. Qed.

Lemma kept_lib {Y} c (k : value -> Py World Y) tr0 h w tr :
  lib_keeps I ->
  steps_ok P tr -> I h -> tr0 `prefix_of` tr -> (forall r, P tr (EvCall c r)) ->
  (forall v h' w', steps_ok P (tr ++ [EvCall c (Ok v)]) -> I h' ->
     wp (k v) (kept P I tr0) (State h' w' (tr ++ [EvCall c (Ok v)]))) ->
  wp (call_lib c ≫= k) (kept P I tr0) (State h w tr).
Proof.
  intros Hlib Htr HI Hpre HP Hk. apply wp_bind. unfold wp, call_lib. simpl.
  specialize (Hlib c h w HI). destruct (lib c h w) as [[[v|e] h'] w']; simpl in *.
  - apply Hk; [by apply steps_ok_snoc|done].
  - split; [by apply steps_ok_snoc|]. split; [done|by apply prefix_app_r].
Qed.

Lemma kept_arr {Y} c (k : value -> Py World Y) tr0 h w tr :
  steps_ok P tr -> I h -> tr0 `prefix_of` tr -> (forall r, P tr (EvCall c r)) ->
  (forall v w', steps_ok P (tr ++ [EvCall c (Ok v)]) ->
     wp (k v) (kept P I tr0) (State h w' (tr ++ [EvCall c (Ok v)]))) ->
  wp (call_arr c ≫= k) (kept P I tr0) (State h w tr).
Proof.
  intros Htr HI Hpre HP Hk. apply wp_bind, wp_arr. intros [v|e] w'.
  - apply Hk. by apply steps_ok_snoc.
  - split; [by apply steps_ok_snoc|]. split; [done|by apply prefix_app_r].
Qed.

Lemma kept_pop {Y} d key dflt (k : value -> Py World Y) tr0 h w tr :
  let c := Call (Meth d "pop") (VStr key :: option_list dflt) [] in
  lib_keeps I -> pop_keeps I ->
  steps_ok P tr -> I h -> tr0 `prefix_of` tr ->
  (forall r, pop_reply h d key dflt r -> P tr (EvCall c r)) ->
  (forall v h' w', steps_ok P (tr ++ [EvCall c (Ok v)]) -> I h' ->
     wp (k v) (kept P I tr0) (State h' w' (tr ++ [EvCall c (Ok v)]))) ->
  wp (dict_pop d key dflt ≫= k) (kept P I tr0) (State h w tr).
Proof.
  intros c Hlib Hpop Htr HI Hpre HP Hk.
  destruct d; try (apply kept_lib; [done..|intros r; by apply HP|done]).
  apply wp_bind. unfold wp, dict_pop. simpl. specialize (HP) as HP'. simpl in HP'.
  destruct (default ∅ (h !! l) !! key) as [v|]; [|destruct dflt as [v|]]; simpl.
  - apply Hk; [apply steps_ok_snoc; [done|by apply HP']|by apply Hpop].
  - apply Hk; [apply steps_ok_snoc; [done|by apply HP']|done].
  - split; [apply steps_ok_snoc; [done|by apply HP']|].
    split; [done|by apply prefix_app_r].
Qed.

Lemma kept_define {Y} n (k : value -> Py World Y) tr0 h w tr :
  steps_ok P tr -> I h -> tr0 `prefix_of` tr -> P tr (EvDef n) ->
  (steps_ok P (tr ++ [EvDef n]) ->
     wp (k (VFun n)) (kept P I tr0) (State h w (tr ++ [EvDef n]))) ->
  wp (define n ≫= k) (kept P I tr0) (State h w tr).
Proof.
  intros Htr HI Hpre HP Hk. apply wp_bind, wp_define. apply Hk. by apply steps_ok_snoc.
Qed.

Lemma kept_lift_res {X Y} (r : res X) (k : X -> Py World Y) tr0 h w tr :
  steps_ok P tr -> I h -> tr0 `prefix_of` tr ->
  (forall x, r = Ok x -> wp (k x) (kept P I tr0) (State h w tr)) ->
  wp (lift_res r ≫= k) (kept P I tr0) (State h w tr).
Proof. intros Htr HI Hpre Hk. apply wp_bind. destruct r as [x|e]; [by apply Hk|done]. Qed.

Lemma kept_quietly {X Y} φ (m : Py World X) Φ (k : X -> Py World Y) tr0 h w tr :
  (forall pre e, φ e -> P pre e) ->
  quietly φ m Φ -> steps_ok P tr -> I h -> tr0 `prefix_of` tr ->
  (forall x w' evs, steps_ok P (tr ++ evs) -> Φ x (tr ++ evs) ->
     wp (k x) (kept P I tr0) (State h w' (tr ++ evs))) ->
  wp (m ≫= k) (kept P I tr0) (State h w tr).
Proof.
  intros quiet_P Hm Htr HI Hpre Hk. apply wp_bind. eapply wp_quietly; [exact Hm|].
  intros r w' evs Hq HΦ.
  assert (steps_ok P (tr ++ evs)) as Htr'.
  { apply steps_ok_app; [done|]. eapply Forall_impl; [exact Hq|]. auto. }
  destruct r as [x|e]; [by apply Hk; [|apply HΦ]|].
  split; [done|]. split; [done|by apply prefix_app_r].
Qed.

Lemma kept_call {X Y} (m : Py World X) (k : X -> Py World Y) tr0 h w tr :
  tr0 `prefix_of` tr ->
  wp m (kept P I tr) (State h w tr) ->
  (forall x h' w' evs, steps_ok P (tr ++ evs) -> I h' ->
     wp (k x) (kept P I tr0) (State h' w' (tr ++ evs))) ->
  wp (m ≫= k) (kept P I tr0) (State h w tr).
Proof.
  intros Hpre Hm Hk. apply wp_bind. eapply wp_mono; [exact Hm|].
  intros r [h' w' tr'] (Htr' & HI' & [evs E]). simpl in *. subst tr'.
  destruct r as [x|e]; [by apply Hk|].
  split; [done|]. split; [done|by apply prefix_app_r].
Qed.

Lemma for_each_kept {X} (body : X -> Py World unit) xs :
  (forall x h w tr, steps_ok P tr -> I h -> wp (body x) (kept P I tr) (State h w tr)) ->
  forall h w tr, steps_ok P tr -> I h -> wp (for_each xs body) (kept P I tr) (State h w tr).
Proof.
  intros Hbody. induction xs as [|x xs IH]; intros h w tr Htr HI; simpl.
  - by apply kept_ret.
  - apply kept_call; [done|by apply Hbody|].
    intros _ h' w' evs Htr' HI'. eapply wp_mono; [by apply IH|].
    intros r s' (? & ? & Hpre). split; [done|]. split; [done|].
    etrans; [|exact Hpre]. by apply prefix_app_r.
Qed.

End Kept.

Lemma lib_keeps_any {World} `{Library World} : lib_keeps any_heap.
Proof. done. Qed.

Lemma pop_keeps_any : pop_keeps any_heap.
Proof. done. Qed.

(** ** The steps of the notebooks are well formed *)

Lemma constructed_mono tr evs sys : constructed tr sys -> constructed (tr ++ evs) sys.
Proof. intros (c & Hc & Hin). exists c. split; [done|]. apply elem_of_app. by left. Qed.

Lemma integrated_mono tr evs sys : integrated tr sys -> integrated (tr ++ evs) sys.
Proof. intros (c & r & Hc & Hin). exists c, r. split; [done|]. apply elem_of_app. by left. Qed.

Lemma good_grid_mono tr evs g : good_grid tr g -> good_grid (tr ++ evs) g.
Proof.
  intros [Hg|[(c & Hc & Hin)|[(c & r & y & Hc & Hin & Hel)|Hg]]].
  - by left.
  - right. left. exists c. split; [done|]. apply elem_of_app. by left.
  - right. right. left. exists c, r, y. repeat split; [done| |by apply elements_of_mono].
    apply elem_of_app. by left.
  - by do 3 right.
Qed.

(** An event that is written out in the trace, or known to be in an
    earlier part of it. *)
Ltac in_tr :=
  first [ assumption
        | apply elem_of_app; right; apply list_elem_of_singleton; reflexivity
        | apply elem_of_app; left; in_tr
        | apply elem_of_cons; left; reflexivity
        | apply elem_of_cons; right; in_tr ].

Ltac solve_prefix := by repeat (first [reflexivity | apply prefix_app_r]).

Ltac find_elements :=
  first [ eassumption | apply elements_of_mono; find_elements ].

Ltac find_constructed :=
  first [ assumption
        | match goal with
          | |- constructed ?tr ?sys =>
              match tr with
              | context [EvCall ?c (Ok sys)] => exists c; split; [reflexivity|in_tr]
              end
          end
        | apply constructed_mono; find_constructed ].

Ltac find_integrated :=
  first [ assumption
        | match goal with
          | |- integrated ?tr ?sys =>
              match tr with
              | context [EvCall (Call (Meth sys "integrate") ?a ?kw) (Ok ?r)] =>
                  exists (Call (Meth sys "integrate") a kw), r; split; [reflexivity|in_tr]
              end
          end
        | apply integrated_mono; find_integrated ].

Ltac find_reported :=
  match goal with
  | Hel : elements_of _ ?r [?x; ?y; ?d] |- reported ?tr ?d =>
      match tr with
      | context [EvCall ?c (Ok r)] =>
          exists c, r, x, y; split; [reflexivity|split; [in_tr|find_elements]]
      end
  end.

Ltac find_grid :=
  first [ assumption
        | left; eexists _, _; split; [reflexivity|vm_compute; reflexivity]
        | right; left;
          match goal with
          | |- from_linspace ?tr ?g =>
              match tr with
              | context [EvCall ?c (Ok g)] => exists c; split; [reflexivity|in_tr]
              end
          end
        | right; right; left;
          match goal with
          | Hel : elements_of _ ?r [?g; ?y] |- from_plot_result ?tr ?g =>
              match tr with
              | context [EvCall ?c (Ok r)] =>
                  exists c, r, y; split; [reflexivity|split; [in_tr|find_elements]]
              end
          end
        | do 3 right; eexists; reflexivity
        | apply good_grid_mono; find_grid ].

(** One call is well formed with respect to the trace before it. *)
Ltac wf_call :=
  unfold well_formed, in_order, integration_request; cbn -[app];
  split;
  [ split;
    [ first [ intros E; discriminate E
            | intros _; eexists; split; [reflexivity|in_tr] ]
    | split; [|split]; intros ? ?;
      first [ discriminate
            | simplify_eq; first [find_constructed | find_integrated | find_reported] ] ]
  | first [ intros E; discriminate E
          | intros _; split;
            [ first [ left; reflexivity | right; split; [reflexivity|set_solver] ]
            | eexists; split; [reflexivity|find_grid] ] ] ].

(** One statement of a block.  [step_ok] proves the step property of a
    call from what is known about its answer; [quiet_ok] proves it of the
    helpers' events. *)
Ltac kept_quiet_step φ φ_ok lem :=
  lazymatch goal with
  | |- wp _ (kept ?P ?I _) (State ?h _ ?tr) =>
      lazymatch goal with
      | Hinv : steps_ok P tr, HI : I h |- _ =>
          eapply (kept_quietly P I φ);
          [apply φ_ok | apply lem | exact Hinv | exact HI | solve_prefix | clear Hinv]
      end
  end.

Ltac kept_step_with step_ok asks_ok quiet_ok :=
  unfold import_, from_import; unfold fn, meth, attr, np, op;
  lazymatch goal with
  | |- wp (mbind _ (mbind _ _)) _ _ => apply wp_assoc
  | |- wp (mbind _ (mret _)) _ _ => apply wp_ret_bind
  | |- wp (mbind _ (if ?b then _ else _)) _ _ => destruct b
  | |- wp (mbind _ (unpack3 _)) _ _ =>
      kept_quiet_step asks asks_ok quietly_unpack3; intros [[? ?] ?] ? ? ? ?
  | |- wp (mbind _ (unpack2 _)) _ _ =>
      kept_quiet_step asks asks_ok quietly_unpack2; intros [? ?] ? ? ? ?
  | |- wp (mbind _ (iterate _)) _ _ =>
      kept_quiet_step asks asks_ok quietly_iterate; intros ? ? ? ? ?
  | |- wp (mbind _ (py_len _)) _ _ =>
      kept_quiet_step asks asks_ok quietly_py_len; intros ? ? ? ? _
  | |- wp (mbind _ (py_add _ _)) _ _ =>
      kept_quiet_step asks asks_ok quietly_py_add; intros ? ? ? ? _
  | |- wp (mbind _ (VanDerPol.py_tuple _)) _ _ =>
      kept_quiet_step asks asks_ok quietly_py_tuple; intros ? ? ? ? _
  | |- wp (mbind _ (Transformations.rmsd _)) _ _ =>
      kept_quiet_step quiet quiet_ok quietly_rmsd; intros ? ? ? ? _
  | |- wp ?m (kept ?P ?I _) (State ?h _ ?tr) =>
      lazymatch goal with
      | Hinv : steps_ok P tr, HI : I h |- _ =>
          lazymatch m with
          | mbind _ (call_lib _) =>
              eapply (kept_lib P I);
              [ assumption | exact Hinv | exact HI | solve_prefix
              | intros ?; step_ok
              | clear Hinv HI; intros ? ? ? Hinv HI ]
          | mbind _ (call_arr _) =>
              eapply (kept_arr P I);
              [ exact Hinv | exact HI | solve_prefix
              | intros ?; step_ok
              | clear Hinv; intros ? ? Hinv ]
          | mbind _ (dict_pop _ _ _) =>
              eapply (kept_pop P I);
              [ assumption | assumption | exact Hinv | exact HI | solve_prefix
              | intros ? ?; step_ok
              | clear Hinv HI; intros ? ? ? Hinv HI ]
          | mbind _ (define _) =>
              eapply (kept_define P I);
              [exact Hinv | exact HI | solve_prefix | done | clear Hinv; intros Hinv]
          | mbind _ (lift_res _) =>
              eapply (kept_lift_res P I); [exact Hinv | exact HI | solve_prefix | intros ? ?]
          | mbind _ (for_each _ _) =>
              eapply (kept_call P I);
              [ solve_prefix
              | apply (for_each_kept P I); [|exact Hinv|exact HI];
                clear Hinv HI; intros [? ?] ? ? ? Hinv HI; cbv beta iota
              | clear Hinv HI; intros ? ? ? ? Hinv HI ]
          | mret _ =>
              eapply (kept_ret P I); [exact Hinv | exact HI | solve_prefix]
          end
      end
  end.

Ltac kept_step := kept_step_with ltac:(idtac; wf_call) asks_well_formed quiet_well_formed.

Section WellFormed.
Context {World : Type} `{Library World}.

Lemma integrate_and_plot_well_formed odesys integrator tout y0 k interpolate stiffness kwargs
    h w tr :
  steps_ok well_formed tr -> constructed tr odesys -> good_grid tr tout ->
  wp (Transformations.integrate_and_plot odesys integrator tout y0 k interpolate stiffness kwargs)
     (kept well_formed any_heap tr) (State h w tr).
Proof.
  intros Hinv Hsys Hgrid. unfold Transformations.integrate_and_plot.
  pose proof lib_keeps_any. pose proof pop_keeps_any.
  assert (HI : any_heap h) by done.
  repeat kept_step.
Qed.

Lemma solve_and_plot_well_formed odesys1 sparse roots nderiv interpolate kwargs h w tr :
  steps_ok well_formed tr ->
  wp (VanDerPol.solve_and_plot odesys1 sparse roots nderiv interpolate kwargs)
     (kept well_formed any_heap tr) (State h w tr).
Proof.
  intros Hinv. unfold VanDerPol.solve_and_plot.
  pose proof lib_keeps_any. pose proof pop_keeps_any.
  assert (HI : any_heap h) by done.
  repeat kept_step.
Qed.

End WellFormed.

Ltac kept_fun_step :=
  lazymatch goal with
  | Hinv : steps_ok well_formed ?tr
    |- wp (mbind _ (Transformations.integrate_and_plot _ _ _ _ _ _ _ _)) _ (State _ _ ?tr) =>
      eapply (kept_call well_formed any_heap);
      [ solve_prefix
      | apply integrate_and_plot_well_formed; [exact Hinv | find_constructed | find_grid]
      | clear Hinv; intros ? ? ? ? Hinv ? ]
  | Hinv : steps_ok well_formed ?tr
    |- wp (mbind _ (VanDerPol.solve_and_plot _ _ _ _ _ _)) _ (State _ _ ?tr) =>
      eapply (kept_call well_formed any_heap);
      [ solve_prefix
      | apply solve_and_plot_well_formed; exact Hinv
      | clear Hinv; intros ? ? ? ? Hinv ? ]
  | _ => kept_step
  end.

Section NotebooksWellFormed.
Context {World : Type} `{Library World}.

Lemma transformations_well_formed w :
  steps_ok well_formed (trace (run Transformations.notebook w).2).
Proof.
  assert (Hinv : steps_ok well_formed []) by apply steps_ok_nil.
  cut (wp Transformations.notebook (kept well_formed any_heap []) (State ∅ w [])).
  { intros [Hk _]. exact Hk. }
  unfold Transformations.notebook.
  pose proof lib_keeps_any. pose proof pop_keeps_any.
  assert (HI : any_heap (∅ : gmap nat (gmap string value))) by done.
  repeat kept_fun_step.
Qed.

Lemma van_der_pol_well_formed w :
  steps_ok well_formed (trace (run VanDerPol.notebook w).2).
Proof.
  assert (Hinv : steps_ok well_formed []) by apply steps_ok_nil.
  cut (wp VanDerPol.notebook (kept well_formed any_heap []) (State ∅ w [])).
  { intros [Hk _]. exact Hk. }
  unfold VanDerPol.notebook.
  pose proof lib_keeps_any. pose proof pop_keeps_any.
  assert (HI : any_heap (∅ : gmap nat (gmap string value))) by done.
  repeat kept_fun_step.
Qed.

End NotebooksWellFormed.

(** C7: in both notebooks, whatever the libraries answer, a callback is
    defined before a system is constructed from it, a system is constructed
    before it is integrated, it is integrated before its result is plotted,
    and the diagnostics that are popped come from an earlier integration. *)
Theorem steps_in_order {World : Type} `{Library World} (w : World) :
  steps_ok in_order (trace (run Transformations.notebook w).2) /\
  steps_ok in_order (trace (run VanDerPol.notebook w).2).
Proof.
  split; eapply steps_ok_mono; try apply transformations_well_formed;
    try apply van_der_pol_well_formed; by intros h e [? _].
Qed.

(** ** What a function that returns has done *)

Section OkThen.
Context {World : Type} `{Library World}.
Implicit Types (h : gmap nat (gmap string value)) (w : World) (tr : list event).

Lemma ok_ret {X} (x : X) (Φ : X -> state World -> Prop) s :
  Φ x s -> wp (mret x) (ok_then Φ) s.
Proof. intros HΦ y [= <-]. done. Qed.

Lemma ok_lib {X} c (k : value -> Py World X) Φ h w tr :
  (forall v h' w', wp (k v) (ok_then Φ) (State h' w' (tr ++ [EvCall c (Ok v)]))) ->
  wp (call_lib c ≫= k) (ok_then Φ) (State h w tr).
Proof. intros Hk. apply wp_bind, wp_lib. intros [v|e] h' w'; [apply Hk|done]. Qed.

Lemma ok_arr {X} c (k : value -> Py World X) Φ h w tr :
  (forall v w', wp (k v) (ok_then Φ) (State h w' (tr ++ [EvCall c (Ok v)]))) ->
  wp (call_arr c ≫= k) (ok_then Φ) (State h w tr).
Proof. intros Hk. apply wp_bind, wp_arr. intros [v|e] w'; [apply Hk|done]. Qed.

Lemma ok_define {X} n (k : value -> Py World X) Φ h w tr :
  wp (k (VFun n)) (ok_then Φ) (State h w (tr ++ [EvDef n])) ->
  wp (define n ≫= k) (ok_then Φ) (State h w tr).
Proof. intros Hk. by apply wp_bind, wp_define. Qed.

Lemma ok_lift_res {X Y} (r : res X) (k : X -> Py World Y) Φ s :
  (forall x, r = Ok x -> wp (k x) (ok_then Φ) s) ->
  wp (lift_res r ≫= k) (ok_then Φ) s.
Proof. intros Hk. apply wp_bind. destruct r as [x|e]; [by apply Hk|done]. Qed.

(** [pop] on a value that need not be a dict. *)
Lemma ok_pop {X} d key dflt (k : value -> Py World X) Φ h w tr :
  (forall v h' w',
     (forall l, d = VDict l ->
        w' = w /\
        ((default ∅ (h !! l) !! key = Some v /\
          h' = <[l := delete key (default ∅ (h !! l))]> h) \/
         (default ∅ (h !! l) !! key = None /\ dflt = Some v /\ h' = h))) ->
     wp (k v) (ok_then Φ)
        (State h' w' (tr ++ [EvCall (Call (Meth d "pop") (VStr key :: option_list dflt) []) (Ok v)]))) ->
  wp (dict_pop d key dflt ≫= k) (ok_then Φ) (State h w tr).
Proof.
  intros Hk. apply wp_bind.
  destruct d; try (apply wp_lib; intros [v|e] h' w'; [by apply Hk|done]).
  apply wp_pop_dict.
  - intros v Hv. apply Hk. intros ? [= <-]. eauto.
  - intros Hnone. destruct dflt as [v|]; [|done].
    apply Hk. intros ? [= <-]. eauto 6.
Qed.

Lemma ok_quietly {X Y} φ (m : Py World X) Ψ (k : X -> Py World Y) Φ h w tr :
  quietly φ m Ψ ->
  (forall x w' evs, Ψ x (tr ++ evs) -> wp (k x) (ok_then Φ) (State h w' (tr ++ evs))) ->
  wp (m ≫= k) (ok_then Φ) (State h w tr).
Proof.
  intros Hm Hk. apply wp_bind. eapply wp_quietly; [exact Hm|].
  intros [x|e] w' evs _ HΨ; [by apply Hk, HΨ|done].
Qed.

Lemma ok_faithful {X Y} (m : Py World X) (k : X -> Py World Y) Φ h w tr :
  faithful m ->
  (forall x h' w' evs, wp (k x) (ok_then Φ) (State h' w' (tr ++ evs))) ->
  wp (m ≫= k) (ok_then Φ) (State h w tr).
Proof.
  intros Hm Hk. apply wp_bind. unfold wp.
  destruct (Hm (State h w tr)) as (evs & E & _).
  destruct (m (State h w tr)) as [[x|e] [h' w' tr']]; simpl in *; [|done].
  subst tr'. apply Hk.
Qed.

End OkThen.

Ltac ok_step :=
  unfold import_, from_import; unfold fn, meth, attr, np, op;
  lazymatch goal with
  | |- wp (mbind _ (mbind _ _)) _ _ => apply wp_assoc
  | |- wp (mbind _ (mret _)) _ _ => apply wp_ret_bind
  | |- wp (mbind _ (if ?b then _ else _)) _ _ => destruct b
  | |- wp (mbind _ (call_lib _)) _ _ => apply ok_lib; intros ? ? ?
  | |- wp (mbind _ (call_arr _)) _ _ => apply ok_arr; intros ? ?
  | |- wp (mbind _ (define _)) _ _ => apply ok_define
  | |- wp (mbind _ (lift_res _)) _ _ => apply ok_lift_res; intros ? ?
  | |- wp (mbind _ (dict_pop _ _ _)) _ _ => apply ok_pop; intros ? ? ? ?
  | |- wp (mbind _ (unpack3 _)) _ _ =>
      eapply ok_quietly; [apply quietly_unpack3|]; intros [[? ?] ?] ? ? ?
  | |- wp (mbind _ (unpack2 _)) _ _ =>
      eapply ok_quietly; [apply quietly_unpack2|]; intros [? ?] ? ? ?
  | |- wp (mbind _ (iterate _)) _ _ =>
      eapply ok_quietly; [apply quietly_iterate|]; intros ? ? ? ?
  | |- wp (mbind _ (py_len _)) _ _ =>
      eapply ok_quietly; [apply quietly_py_len|]; intros ? ? ? _
  | |- wp (mbind _ (Transformations.rmsd _)) _ _ =>
      eapply ok_quietly; [apply quietly_rmsd_result|]; intros ? ? ? ?
  | |- wp (mbind _ (for_each _ _)) _ _ =>
      apply ok_faithful; [by faithful_block|]; intros ? ? ? ?
  | |- wp (mret _) _ _ => apply ok_ret
  end.

(** Some event of the trace in the goal is the call asked for. *)
Ltac find_call :=
  match goal with
  | |- context [EvCall ?c (Ok ?r)] => exists c, r; split; [reflexivity|split; [in_tr|]]
  end.

Section Unpacked.
Context {World : Type} `{Library World}.

(** [integrate_and_plot] returns only if its integration returned three
    values. *)
Lemma integrate_and_plot_unpacks odesys integrator tout y0 k interpolate stiffness kwargs h w :
  wp (Transformations.integrate_and_plot odesys integrator tout y0 k interpolate stiffness kwargs)
     (ok_then (fun '(n, info, e) s' =>
        exists c r, calls_method c "integrate" = true /\ EvCall c (Ok r) ∈ trace s' /\
                    exists xout yout, elements_of (trace s') r [xout; yout; info]))
     (State h w []).
Proof.
  unfold Transformations.integrate_and_plot. repeat ok_step.
  all: cbn [trace]; find_call; eexists _, _; find_elements.
Qed.

(** [solve_and_plot] returns only if its integration returned three
    values and [plot_result] two, and it returns the third and the two. *)
Lemma solve_and_plot_unpacks odesys1 sparse roots nderiv interpolate kwargs h w :
  wp (VanDerPol.solve_and_plot odesys1 sparse roots nderiv interpolate kwargs)
     (ok_then (fun '(info2, xplot, yplot) s' =>
        (exists c r, calls_method c "integrate" = true /\ EvCall c (Ok r) ∈ trace s' /\
                     exists xout yout, elements_of (trace s') r [xout; yout; info2]) /\
        (exists c r, calls_method c "plot_result" = true /\ EvCall c (Ok r) ∈ trace s' /\
                     elements_of (trace s') r [xplot; yplot])))
     (State h w []).
Proof.
  unfold VanDerPol.solve_and_plot. repeat ok_step.
  all: cbn [trace]; split; find_call; [eexists _, _|]; find_elements.
Qed.

End Unpacked.

(** ** Integration requests *)

Example toy_transformations_runs :
  let r := toy_transformations in
  is_ok r.1 = true /\ length (integrate_calls (trace r.2)) = 10.
Proof. vm_compute. done. Qed.

Example toy_van_der_pol_runs :
  let r := toy_van_der_pol in
  is_ok r.1 = true /\ length (integrate_calls (trace r.2)) = 14.
Proof. vm_compute. done. Qed.

(** The first integration of transformations.ipynb,
    [odesys.integrate(np.linspace(0, tend), y0, params=k)], names no
    integrator and no tolerance. *)
Lemma not_every_request_gives_integrator_and_tolerances :
  ~ (forall c,
       c ∈ integrate_calls (trace toy_transformations.2) ->
       gives_grid_y0_params c /\ gives_integrator_and_tolerances c).
Proof.
  intros Hall.
  destruct (Hall (Call (Meth (VObj 10) "integrate")
                       [VObj 11; VList (num <$> Transformations.y0)]
                       [("params", VList (num <$> Transformations.k))]))
    as [_ [[name Hin] _]].
  - apply list_elem_of_lookup. exists 0. vm_compute. reflexivity.
  - simpl in Hin. apply list_elem_of_singleton in Hin. discriminate.
Qed.

(** C1, amended: every integration request of the notebooks gives the grid,
    the initial values and the parameters, whatever the libraries answer;
    [integrate_and_plot] and [solve_and_plot] return only if their
    integration returned three values, the third of which they return. *)
Theorem integration_requests_give_grid_y0_params {World : Type} `{Library World}
    (w : World) (h : gmap nat (gmap string value)) :
  steps_ok (integration_request (fun _ c => gives_grid_y0_params c))
    (trace (run Transformations.notebook w).2) /\
  steps_ok (integration_request (fun _ c => gives_grid_y0_params c))
    (trace (run VanDerPol.notebook w).2) /\
  (forall odesys integrator tout y0 k interpolate stiffness kwargs n info e,
     let s' := Transformations.integrate_and_plot odesys integrator tout y0 k
                 interpolate stiffness kwargs (State h w []) in
     s'.1 = Ok (n, info, e) ->
     exists c r, calls_method c "integrate" = true /\ EvCall c (Ok r) ∈ trace s'.2 /\
                 exists xout yout, elements_of (trace s'.2) r [xout; yout; info]) /\
  (forall odesys1 sparse roots nderiv interpolate kwargs info2 xplot yplot,
     let s' := VanDerPol.solve_and_plot odesys1 sparse roots nderiv interpolate kwargs
                 (State h w []) in
     s'.1 = Ok (info2, xplot, yplot) ->
     exists c r, calls_method c "integrate" = true /\ EvCall c (Ok r) ∈ trace s'.2 /\
                 exists xout yout, elements_of (trace s'.2) r [xout; yout; info2]).
Proof.
  split; [|split; [|split]].
  - eapply steps_ok_mono; [|apply transformations_well_formed].
    intros pre [n|c r] [_ Hreq]; [done|]. intros Hc. by destruct (Hreq Hc).
  - eapply steps_ok_mono; [|apply van_der_pol_well_formed].
    intros pre [n|c r] [_ Hreq]; [done|]. intros Hc. by destruct (Hreq Hc).
  - intros odesys integrator tout y0 k interpolate stiffness kwargs n info e s' Hok.
    exact (integrate_and_plot_unpacks odesys integrator tout y0 k interpolate stiffness
             kwargs h w _ Hok).
  - intros odesys1 sparse roots nderiv interpolate kwargs info2 xplot yplot s' Hok.
    exact (proj1 (solve_and_plot_unpacks odesys1 sparse roots nderiv interpolate kwargs
                    h w _ Hok)).
Qed.

Lemma integration_requests_give_grid_y0_params_witness :
  let s' := VanDerPol.solve_and_plot (H := toy toy_info 2) (VObj 0) (-1) VNone 0 None []
              (State ∅ 1 []) in
  s'.1 = Ok (VDict 9, VObj 12, VObj 13) /\
  exists c r, calls_method c "integrate" = true /\ EvCall c (Ok r) ∈ trace s'.2 /\
              exists xout yout, elements_of (trace s'.2) r [xout; yout; VDict 9].
Proof.
  intros s'.
  assert (Hok : s'.1 = Ok (VDict 9, VObj 12, VObj 13)) by (vm_compute; reflexivity).
  split; [exact Hok|].
  pose proof (integration_requests_give_grid_y0_params (H := toy toy_info 2) 1 ∅)
    as (_ & _ & _ & Hs).
  pose proof (Hs (VObj 0) (-1)%Z VNone 0%Z None [] (VDict 9) (VObj 12) (VObj 13)) as Hs'.
  cbv zeta in Hs'. exact (Hs' Hok).
Defined.

(** The call [integrate_and_plot(odesys, 'cvode', tend, y0, k, ...)] passes
    the number [tend] as its grid. *)
Lemma not_every_grid_is_a_sequence :
  ~ (forall c,
       c ∈ integrate_calls (trace toy_transformations.2) ->
       exists g, grid_of c = Some g /\ is_sequence g).
Proof.
  intros Hall.
  destruct (Hall (Call (Meth (VObj 24) "integrate")
                       [VNum Transformations.tend; VList (num <$> Transformations.y0);
                        VList (num <$> Transformations.k)]
                       [("integrator", VStr "cvode"); ("atol", VNum 1e-8);
                        ("rtol", VNum 1e-8); ("method", VStr "bdf")]))
    as (g & Hg & Hseq).
  - apply list_elem_of_lookup. exists 2. vm_compute. reflexivity.
  - injection Hg as <-. exact Hseq.
Qed.

(** C2, amended: the grid of every integration request of the notebooks is
    a list of two increasing end points, an array that [np.linspace]
    returned, the first of the two values that [plot_result] returned, or a
    bare number (the end point [tend]). *)
Theorem integration_grids_known {World : Type} `{Library World} (w : World) :
  steps_ok (integration_request grid_known) (trace (run Transformations.notebook w).2) /\
  steps_ok (integration_request grid_known) (trace (run VanDerPol.notebook w).2).
Proof.
  split.
  - eapply steps_ok_mono; [|apply transformations_well_formed].
    intros pre [n|c r] [_ Hreq]; [done|]. intros Hc. by destruct (Hreq Hc).
  - eapply steps_ok_mono; [|apply van_der_pol_well_formed].
    intros pre [n|c r] [_ Hreq]; [done|]. intros Hc. by destruct (Hreq Hc).
Qed.

(** ** The reference integration of [solve_and_plot] *)

Lemma asks_reference flag pre e : asks e -> reference_only_if flag pre e.
Proof.
  destruct e as [n|[[] a kw] r]; simpl; try done.
  unfold is_reference_integration, is_error_difference, calls_method, calls_op. simpl.
  by intros [-> | [-> | ->]].
Qed.

Ltac ref_call :=
  unfold reference_only_if, is_reference_integration, is_error_difference;
  cbn -[app]; done.

Ltac ref_step := kept_step_with ltac:(idtac; ref_call) asks_reference asks_reference.

(** Some event of the trace in the goal is the call asked for; [P c] is
    checked by computation. *)
Ltac find_event :=
  match goal with
  | |- context [EvCall ?c (Ok ?r)] => exists c, r; split; [reflexivity|in_tr]
  end.

Section Reference.
Context {World : Type} `{Library World}.

Lemma solve_and_plot_reference_only_if odesys1 sparse roots nderiv interpolate kwargs h w :
  wp (VanDerPol.solve_and_plot odesys1 sparse roots nderiv interpolate kwargs)
     (kept (reference_only_if (VanDerPol.interpolate_flag interpolate nderiv)) any_heap [])
     (State h w []).
Proof.
  unfold VanDerPol.solve_and_plot.
  pose proof lib_keeps_any. pose proof pop_keeps_any.
  assert (HI : any_heap h) by done.
  destruct (VanDerPol.interpolate_flag interpolate nderiv) eqn:Hflag; cbv beta iota.
  - assert (Hinv : steps_ok (reference_only_if true) []) by apply steps_ok_nil.
    repeat ref_step.
  - assert (Hinv : steps_ok (reference_only_if false) []) by apply steps_ok_nil.
    repeat ref_step.
Qed.

Lemma solve_and_plot_reference_if odesys1 sparse roots nderiv interpolate kwargs h w :
  wp (VanDerPol.solve_and_plot odesys1 sparse roots nderiv interpolate kwargs)
     (ok_then (fun '(info2, xplot, yplot) s' =>
        VanDerPol.interpolate_flag interpolate nderiv = true ->
        (exists c r, is_reference_integration c = true /\ EvCall c (Ok r) ∈ trace s') /\
        (exists yref r, EvCall (Call (Op "-") [yplot; yref] []) (Ok r) ∈ trace s')))
     (State h w []).
Proof.
  unfold VanDerPol.solve_and_plot. repeat ok_step.
  - cbn [trace]. intros _. split; [find_event|].
    match goal with
    | |- context [EvCall (Call (Op "-") [_; ?yref] []) (Ok ?r)] => exists yref, r; in_tr
    end.
  - intros [=].
Qed.

End Reference.

(** C4: in [solve_and_plot] the reference integration (the [integrate] call
    with [force_predefined]) and the error computation [yplot - yref] happen
    only if the interpolate flag is true and, when the function returns, if
    it is true; passed as [None] the flag is [nderiv > 0]. *)
Theorem reference_integration_iff_interpolate {World : Type} `{Library World}
    odesys1 sparse roots nderiv interpolate kwargs h (w : World) :
  let flag := VanDerPol.interpolate_flag interpolate nderiv in
  let s' := VanDerPol.solve_and_plot odesys1 sparse roots nderiv interpolate kwargs
              (State h w []) in
  (forall c r, EvCall c r ∈ trace s'.2 ->
     is_reference_integration c || is_error_difference c = true -> flag = true) /\
  (forall info2 xplot yplot, s'.1 = Ok (info2, xplot, yplot) -> flag = true ->
     (exists c r, is_reference_integration c = true /\ EvCall c (Ok r) ∈ trace s'.2) /\
     (exists yref r, EvCall (Call (Op "-") [yplot; yref] []) (Ok r) ∈ trace s'.2)) /\
  (VanDerPol.interpolate_flag None nderiv = true <-> (nderiv > 0)%Z) /\
  (forall b, VanDerPol.interpolate_flag (Some b) nderiv = b).
Proof.
  intros flag s'. split; [|split; [|split]].
  - intros c r Hin.
    destruct (solve_and_plot_reference_only_if odesys1 sparse roots nderiv interpolate kwargs h w)
      as [Hsteps _].
    destruct (steps_ok_elem _ _ _ Hsteps Hin) as (pre & post & _ & HP). exact HP.
  - intros info2 xplot yplot Hok.
    exact (solve_and_plot_reference_if odesys1 sparse roots nderiv interpolate kwargs h w _ Hok).
  - simpl. rewrite Z.ltb_lt. lia.
  - done.
Qed.

Lemma reference_integration_iff_interpolate_witness :
  let s' := VanDerPol.solve_and_plot (H := toy toy_info 2) (VObj 0) (-1) VNone 1 None []
              (State ∅ 1 []) in
  s'.1 = Ok (VDict 9, VObj 12, VObj 13) /\
  (exists c r, is_reference_integration c = true /\ EvCall c (Ok r) ∈ trace s'.2) /\
  (exists yref r, EvCall (Call (Op "-") [VObj 13; yref] []) (Ok r) ∈ trace s'.2).
Proof.
  intros s'.
  assert (Hok : s'.1 = Ok (VDict 9, VObj 12, VObj 13)) by (vm_compute; reflexivity).
  split; [exact Hok|].
  pose proof (reference_integration_iff_interpolate (H := toy toy_info 2)
                (VObj 0) (-1)%Z VNone 1%Z None [] ∅ 1) as (_ & Hs & _).
  cbv zeta in Hs. exact (Hs (VDict 9) (VObj 12) (VObj 13) Hok eq_refl).
Defined.

(** ** The diagnostics after [pop] *)











Section Popped.
Context {World : Type} `{Library World}.





End Popped.

Section RootIndices.
Context {World : Type} `{Library World}.


End RootIndices.

Section PopsBoth.
Context {World : Type} `{Library World}.


End PopsBoth.




(** ** What the notebooks compute themselves *)

(** [f] does arithmetic of its own: -7 is neither [t] nor an entry of [x]
    or [k]. *)
Lemma f_computes : ~ only_passes_on (f (A := Z)).
Proof.
  intros Hf.
  destruct (Hf 0%Z [1; 0; 0; 0]%Z Transformations.k [-7; 7; 0; 0]%Z (-7)%Z eq_refl)
    as [E|[E|E]]; [by left|discriminate|..].
  - repeat (apply elem_of_cons in E as [E|E]; [discriminate|]). by apply elem_of_nil in E.
  - repeat (apply elem_of_cons in E as [E|E]; [discriminate|]). by apply elem_of_nil in E.
Qed.

Section Returned.
Context {World : Type} `{Library World}.

Lemma integrate_and_plot_returns_rmsd odesys integrator tout y0 k interpolate stiffness kwargs h w :
  wp (Transformations.integrate_and_plot odesys integrator tout y0 k interpolate stiffness kwargs)
     (ok_then (fun '(n, info, e) s' =>
        exists sm, EvCall (Call (Op "**") [sm; VNum 0.5] []) (Ok e) ∈ trace s'))
     (State h w []).
Proof.
  unfold Transformations.integrate_and_plot. repeat ok_step.
  all: cbn [trace]; assumption.
Qed.

End Returned.

(** C5, amended: the notebooks contain no solver.  What [solve_and_plot]
    returns are the diagnostics of its integration and the two values of
    [plot_result]; what [integrate_and_plot] returns are the diagnostics of
    its integration and the answer of [rmsd]'s last numpy call.  The
    derivative expressions of the callbacks are the notebooks' own
    arithmetic: [f] computes the four rate expressions of the decay chain. *)
Theorem drivers_return_library_values {World : Type} `{Library World}
    (h : gmap nat (gmap string value)) (w : World) :
  (forall odesys1 sparse roots nderiv interpolate kwargs info2 xplot yplot,
     let s' := VanDerPol.solve_and_plot odesys1 sparse roots nderiv interpolate kwargs
                 (State h w []) in
     s'.1 = Ok (info2, xplot, yplot) ->
     (exists c r, calls_method c "integrate" = true /\ EvCall c (Ok r) ∈ trace s'.2 /\
                  exists xout yout, elements_of (trace s'.2) r [xout; yout; info2]) /\
     (exists c r, calls_method c "plot_result" = true /\ EvCall c (Ok r) ∈ trace s'.2 /\
                  elements_of (trace s'.2) r [xplot; yplot])) /\
  (forall odesys integrator tout y0 k interpolate stiffness kwargs n info e,
     let s' := Transformations.integrate_and_plot odesys integrator tout y0 k
                 interpolate stiffness kwargs (State h w []) in
     s'.1 = Ok (n, info, e) ->
     (exists c r, calls_method c "integrate" = true /\ EvCall c (Ok r) ∈ trace s'.2 /\
                  exists xout yout, elements_of (trace s'.2) r [xout; yout; info]) /\
     (exists sm, EvCall (Call (Op "**") [sm; VNum 0.5] []) (Ok e) ∈ trace s'.2)) /\
  (forall (A : Type) (N : Num A) (t x0 x1 x2 x3 k0 k1 k2 k3 : A),
     f t [x0; x1; x2; x3] [k0; k1; k2; k3]
     = Ok [mul (neg k0) x0; sub (mul k0 x0) (mul k1 x1);
           sub (mul k1 x1) (mul k2 x2); sub (mul k2 x2) (mul k3 x3)]).
Proof.
  split; [|split].
  - intros odesys1 sparse roots nderiv interpolate kwargs info2 xplot yplot s' Hok.
    exact (solve_and_plot_unpacks odesys1 sparse roots nderiv interpolate kwargs h w _ Hok).
  - intros odesys integrator tout y0 k interpolate stiffness kwargs n info e s' Hok. split.
    + exact (integrate_and_plot_unpacks odesys integrator tout y0 k interpolate stiffness
               kwargs h w _ Hok).
    + exact (integrate_and_plot_returns_rmsd odesys integrator tout y0 k interpolate
               stiffness kwargs h w _ Hok).
  - reflexivity.
Qed.

Lemma drivers_return_library_values_witness :
  let s' := VanDerPol.solve_and_plot (H := toy toy_info 2) (VObj 0) (-1) VNone 0 None []
              (State ∅ 1 []) in
  s'.1 = Ok (VDict 9, VObj 12, VObj 13) /\
  (exists c r, calls_method c "integrate" = true /\ EvCall c (Ok r) ∈ trace s'.2 /\
               exists xout yout, elements_of (trace s'.2) r [xout; yout; VDict 9]) /\
  (exists c r, calls_method c "plot_result" = true /\ EvCall c (Ok r) ∈ trace s'.2 /\
               elements_of (trace s'.2) r [VObj 12; VObj 13]).
Proof.
  intros s'.
  assert (Hok : s'.1 = Ok (VDict 9, VObj 12, VObj 13)) by (vm_compute; reflexivity).
  split; [exact Hok|].
  pose proof (drivers_return_library_values (H := toy toy_info 2) ∅ 1) as (Hs & _).
  pose proof (Hs (VObj 0) (-1)%Z VNone 0%Z None [] (VDict 9) (VObj 12) (VObj 13)) as Hs'.
  cbv zeta in Hs'. exact (Hs' Hok).
Defined.

(** * Further properties *)
(* ===================================================================== *)

(** ** The callbacks as dynamical systems *)

Lemma mapM_res_ok_inv {X Y} (g : X -> res Y) (l : list X) (r : list Y) :
  mapM g l = Ok r -> forall a, In a l -> exists y, g a = Ok y.
Proof.
  revert r. induction l as [|b l IH]; intros r; simpl; [done|].
  destruct (g b) as [y|e] eqn:Eb; simpl; [|done].
  destruct (mapM g l) as [ys|e]; simpl; [|done].
  intros _ a [<-|Hin]; [eauto|]. by apply (IH ys).
Qed.

Section CallbackAlgebra.
Context {A : Type} `{NumLaws A}.
Add Ring A_ring' : num_ring.

Lemma foldl_add_shift (a : A) (l : list A) : foldl add a l = add a (foldl add zero l).
Proof.
  revert a. induction l as [|b l IH]; intros a; simpl.
  - ring.
  - rewrite (IH (add a b)), (IH (add zero b)). ring.
Qed.

Lemma total_cons (a : A) (l : list A) : total (a :: l) = add a (total l).
Proof. unfold total. simpl. rewrite foldl_add_shift. ring. Qed.

Lemma total_nil : total ([] : list A) = zero.
Proof. reflexivity. Qed.

Lemma total_app (l1 l2 : list A) : total (l1 ++ l2) = add (total l1) (total l2).
Proof.
  induction l1 as [|a l1 IH]; simpl.
  - rewrite total_nil. ring.
  - rewrite !total_cons, IH. ring.
Qed.

Lemma f2_link_ok (x p : list A) i y :
  f2_link x p i = Ok y ->
  exists a b a1 b1,
    x !! i = Some a /\ p !! (i + 2) = Some b /\
    x !! (i + 1) = Some a1 /\ p !! (i + 3) = Some b1 /\
    y = sub (mul b a) (mul b1 a1).
Proof.
  unfold f2_link, lift2, getitem.
  destruct (p !! (i + 2)) as [b|]; simpl; [|done].
  destruct (x !! i) as [a|]; simpl; [|done].
  destruct (p !! (i + 3)) as [b1|]; simpl; [|done].
  destruct (x !! (i + 1)) as [a1|]; simpl; [|done].
  intros [= <-]. by exists a, b, a1, b1.
Qed.

(** The entries [m .. m+n-1] of the comprehension add up to
    [p[m+2]*x[m] - p[m+n+2]*x[m+n]]: the sum telescopes. *)
Lemma f2_links_telescope (x p : list A) n m es :
  mapM (f2_link x p) (seq m n) = Ok es ->
  forall a b c d,
    x !! m = Some a -> p !! (m + 2) = Some b ->
    x !! (m + n) = Some c -> p !! (m + n + 2) = Some d ->
    total es = sub (mul b a) (mul d c).
Proof.
  revert m es. induction n as [|n IH]; intros m es; simpl.
  - intros [= <-] a b c d Ha Hb Hc Hd.
    rewrite Nat.add_0_r in Hc, Hd. rewrite total_nil.
    assert (c = a) as -> by congruence. assert (d = b) as -> by congruence. ring.
  - destruct (f2_link x p m) as [y|] eqn:Ey; simpl; [|done].
    destruct (mapM (f2_link x p) (seq (S m) n)) as [es'|] eqn:Es; simpl; [|done].
    intros [= <-] a b c d Ha Hb Hc Hd.
    apply f2_link_ok in Ey as (a' & b' & a1 & b1 & Ea & Eb & Ea1 & Eb1 & ->).
    assert (a' = a) as -> by congruence. assert (b' = b) as -> by congruence.
    rewrite total_cons.
    rewrite (IH (S m) es' Es a1 b1 c d).
    + ring.
    + by rewrite <- Nat.add_1_r.
    + by replace (S m + 2) with (m + 3) by lia.
    + by replace (S m + n) with (m + S n) by lia.
    + by replace (S m + n + 2) with (m + S n + 2) by lia.
Qed.

Context `{HasExp A}.

(** X1: in exact arithmetic (a commutative ring: ints, Fractions, sympy
    expressions) the entries of [f2(t, x, p)] add up to the inflow
    [p[1]*y0(t)] minus the outflow [p[n+1]*x[n-1]] of the last variable, for
    a chain of any length [n = len(x)].  In floats the sum is this value up
    to rounding only. *)
Theorem f2_components_sum (t : A) (x p : list A) r :
  f2 t x p = Ok r ->
  exists p0 p1 xn pn,
    p !! 0 = Some p0 /\ p !! 1 = Some p1 /\
    x !! (length x - 1) = Some xn /\ p !! (length x + 1) = Some pn /\
    total r = sub (mul p1 (mul p0 (sp_exp (mul (neg p1) t)))) (mul pn xn).
Proof.
  unfold f2, lift1, lift2.
  destruct (getitem p 0) as [p0|] eqn:E0; simpl; [|done].
  destruct (getitem p 1) as [p1|] eqn:E1; simpl; [|done].
  destruct (getitem p 2) as [p2|] eqn:E2; simpl; [|done].
  destruct (getitem x 0) as [x0|] eqn:Ex; simpl; [|done].
  change (fun i : nat => _) with (f2_link x p).
  destruct (mapM (f2_link x p) (seq 0 (length x - 1))) as [es|] eqn:Es; simpl; [|done].
  intros [= <-].
  unfold getitem in *.
  destruct (p !! 0) as [?|] eqn:L0; [|done]. destruct (p !! 1) as [?|] eqn:L1; [|done].
  destruct (p !! 2) as [?|] eqn:L2; [|done]. destruct (x !! 0) as [?|] eqn:Lx; [|done].
  simplify_eq.
  assert (Hlen : length es = length x - 1).
  { by rewrite (mapM_res_length _ _ _ Es), length_seq. }
  assert (Hx : 0 < length x) by (by apply lookup_lt_Some in Lx).
  destruct (lookup_lt_is_Some_2 x (length x - 1)) as [xn Hxn]; [lia|].
  assert (Hp : length x + 1 < length p).
  { destruct (decide (length x = 1)) as [E|E].
    - rewrite E. by apply lookup_lt_Some in L2.
    - assert (In (length x - 2) (seq 0 (length x - 1))) as Hin by (apply in_seq; lia).
      destruct (mapM_res_ok_inv _ _ _ Es _ Hin) as [y Hy].
      apply f2_link_ok in Hy as (_ & _ & _ & b1 & _ & _ & _ & Hb1 & _).
      apply lookup_lt_Some in Hb1. lia. }
  destruct (lookup_lt_is_Some_2 p (length x + 1) Hp) as [pn Hpn].
  exists p0, p1, xn, pn. repeat split; try done.
  rewrite total_cons.
  rewrite (f2_links_telescope x p _ 0 es Es x0 p2 xn pn); try done.
  - ring.
  - by replace (0 + (length x - 1) + 2) with (length x + 1) by lia.
Qed.


(** X2: what the callback of [PartiallySolvedSystem] returns for the first
    variable, put into [f] in its place, gives [f2] for the parameters
    [[y0[0]] + k] (for a start at [x0 = 0]). *)
Theorem partially_solved_f_is_f2 (dep : list A) (t : A) (y0 k x : list A) d e :
  lambda_x0_y0_p0 dep t zero y0 k = Ok [(d, e)] ->
  length x = 3 -> length k = 4 ->
  exists a e0 r,
    y0 !! 0 = Some a /\ f t (e :: x) k = Ok (e0 :: r) /\ f2 t x (a :: k) = Ok r.
Proof.
  unfold lambda_x0_y0_p0, lift1, lift2, getitem.
  destruct dep as [|d' dep]; simpl; [done|].
  destruct y0 as [|a y0]; simpl; [done|].
  destruct k as [|k0 [|k1 [|k2 [|k3 [|]]]]]; simpl; try done.
  destruct x as [|x1 [|x2 [|x3 [|]]]]; simpl; try done.
  intros [= <- <-] _ _. exists a. eexists _, _. split; [done|].
  replace (sub t zero) with t by ring. split; reflexivity.
Qed.

(** X3: the origin is a stationary point of the decay chain and of the Van der
    Pol oscillator. *)
Theorem origin_is_stationary (t : A) (k p : list A) :
  4 <= length k -> 1 <= length p ->
  f t [zero; zero; zero; zero] k = Ok [zero; zero; zero; zero] /\
  vdp1 t [zero; zero] p = Ok [zero; zero].
Proof.
  intros Hk Hp.
  destruct k as [|k0 [|k1 [|k2 [|k3 k']]]]; simpl in Hk; try lia.
  destruct p as [|p0 p']; simpl in Hp; try lia.
  unfold f, vdp1, lift1, lift2. simpl. split; repeat f_equal; ring.
Qed.

(** X4: the Van der Pol right-hand side is odd in the state. *)
Theorem vdp1_odd (x : A) (y p r : list A) :
  vdp1 x y p = Ok r -> vdp1 x (neg <$> y) p = Ok (neg <$> r).
Proof.
  destruct y as [|y0 [|y1 y']]; try done.
  destruct p as [|p0 p']; try done.
  unfold vdp1, lift1, lift2. simpl. intros [= <-]. simpl. repeat f_equal. ring.
Qed.

(** X5: in exact arithmetic (a commutative ring: ints, Fractions, sympy
    expressions) the decay chain is linear in the state.  In floats it is
    not: see [f_not_additive_in_binary64]. *)
Theorem f_linear (t a : A) (x y k r1 r2 : list A) :
  f t x k = Ok r1 -> f t y k = Ok r2 ->
  f t (zip_with add x y) k = Ok (zip_with add r1 r2) /\
  f t (mul a <$> x) k = Ok (mul a <$> r1).
Proof.
  destruct x as [|x0 [|x1 [|x2 [|x3 x']]]]; try done.
  all: destruct k as [|k0 [|k1 [|k2 [|k3 k']]]]; try done.
  destruct y as [|y0 [|y1 [|y2 [|y3 y']]]]; try done.
  unfold f, lift1, lift2. simpl. intros [= <-] [= <-]. simpl.
  split; f_equal; repeat (apply (f_equal2 cons); [ring|]); reflexivity.
Qed.

End CallbackAlgebra.

(** In binary64 [f] is not additive: for [x = [0.1, 0.2, 0.3, 0.4]],
    [y = [0.2, 0.1, 0.7, 0.9]] and [k = [7, 3, 2, 1]] the first entry of
    [f(0, x + y, k)] is [-2.1000000000000005], and that of
    [f(0, x, k) + f(0, y, k)] is [-2.1]. *)
Example f_not_additive_in_binary64 :
  let x := [0x1.999999999999ap-4; 0x1.999999999999ap-3;
            0x1.3333333333333p-2; 0x1.999999999999ap-2]%float in
  let y := [0x1.999999999999ap-3; 0x1.999999999999ap-4;
            0x1.6666666666666p-1; 0x1.ccccccccccccdp-1]%float in
  let k := [7; 3; 2; 1]%float in
  f 0%float (zip_with add x y) k
  <> (r1 ← f 0%float x k; r2 ← f 0%float y k; Ok (zip_with add r1 r2)).
Proof.
  intros x y k E.
  apply (f_equal (fun r => match r with
                           | Ok (a :: _) => PrimFloat.eqb a (-0x1.0cccccccccccdp+1)%float
                           | _ => false
                           end)) in E.
  vm_compute in E. discriminate E.
Qed.

Lemma f2_components_sum_witness :
  exists r,
    f2 0%R [1; 2; 3]%R [1; 7; 3; 2; 1]%R = Ok r /\
    exists p0 p1 xn pn,
      [1; 7; 3; 2; 1]%R !! 0 = Some p0 /\ [1; 7; 3; 2; 1]%R !! 1 = Some p1 /\
      [1; 2; 3]%R !! (length [1; 2; 3]%R - 1) = Some xn /\
      [1; 7; 3; 2; 1]%R !! (length [1; 2; 3]%R + 1) = Some pn /\
      total r = sub (mul p1 (mul p0 (sp_exp (mul (neg p1) 0%R)))) (mul pn xn).
Proof.
  eexists. split; [reflexivity|].
  apply (f2_components_sum (A := R) 0%R [1; 2; 3]%R [1; 7; 3; 2; 1]%R). reflexivity.
Defined.

Lemma partially_solved_f_is_f2_witness :
  exists d e,
    lambda_x0_y0_p0 [0%R] 1%R zero [1%R] [7; 3; 2; 1]%R = Ok [(d, e)] /\
    exists a e0 r,
      [1%R] !! 0 = Some a /\
      f 1%R (e :: [2; 3; 4]%R) [7; 3; 2; 1]%R = Ok (e0 :: r) /\
      f2 1%R [2; 3; 4]%R (a :: [7; 3; 2; 1]%R) = Ok r.
Proof.
  eexists _, _. split; [reflexivity|].
  eapply (partially_solved_f_is_f2 (A := R) [0%R] 1%R [1%R] [7; 3; 2; 1]%R [2; 3; 4]%R);
    reflexivity.
Defined.

Lemma origin_is_stationary_witness :
  4 <= length Transformations.k /\ 1 <= length [3%Z] /\
  f 0%Z [0; 0; 0; 0]%Z Transformations.k = Ok [0; 0; 0; 0]%Z /\
  vdp1 0%Z [0; 0]%Z [3%Z] = Ok [0; 0]%Z.
Proof.
  assert (Hk : 4 <= length Transformations.k) by (simpl; lia).
  assert (Hp : 1 <= length [3%Z]) by (simpl; lia).
  split; [exact Hk|]. split; [exact Hp|].
  exact (origin_is_stationary (A := Z) 0%Z Transformations.k [3%Z] Hk Hp).
Defined.

Lemma vdp1_odd_witness :
  vdp1 0%Z [2; 1]%Z [3%Z] = Ok [1; -11]%Z /\
  vdp1 0%Z (neg <$> [2; 1]%Z) [3%Z] = Ok (neg <$> [1; -11]%Z).
Proof.
  split; [reflexivity|].
  apply (vdp1_odd (A := Z) 0%Z [2; 1]%Z [3%Z]). reflexivity.
Defined.

Lemma f_linear_witness :
  f 0%Z [1; 0; 0; 0]%Z Transformations.k = Ok [-7; 7; 0; 0]%Z /\
  f 0%Z [0; 1; 0; 0]%Z Transformations.k = Ok [0; -3; 3; 0]%Z /\
  f 0%Z (zip_with add [1; 0; 0; 0]%Z [0; 1; 0; 0]%Z) Transformations.k
    = Ok (zip_with add [-7; 7; 0; 0]%Z [0; -3; 3; 0]%Z) /\
  f 0%Z (mul 5%Z <$> [1; 0; 0; 0]%Z) Transformations.k = Ok (mul 5%Z <$> [-7; 7; 0; 0]%Z).
Proof.
  split; [reflexivity|]. split; [reflexivity|].
  apply (f_linear (A := Z) 0%Z 5%Z [1; 0; 0; 0]%Z [0; 1; 0; 0]%Z Transformations.k);
    reflexivity.
Defined.

(** X6: with the first variable of the decay chain replaced by its solution
    [p0*exp(-k0*t)], the last three entries of [f] are the entries of [f2]
    for the parameters [[p0, k0, k1, k2, k3]]. *)
Theorem f2_is_f_with_first_variable_solved {A : Type} `{Num A} `{HasExp A}
    (t p0 k0 k1 k2 k3 x1 x2 x3 : A) :
  exists e0 r,
    f t [mul p0 (sp_exp (mul (neg k0) t)); x1; x2; x3] [k0; k1; k2; k3] = Ok (e0 :: r) /\
    f2 t [x1; x2; x3] [p0; k0; k1; k2; k3] = Ok r.
Proof. eexists _, _. split; reflexivity. Qed.


(** X8: at the start, [indep = x0], the expression that the callback of
    [PartiallySolvedSystem] returns is the initial value [y0[0]]. *)
Theorem lambda_x0_y0_p0_initial_value (dep : list R) (x0 : R) (y0 p0 : list R) d e :
  lambda_x0_y0_p0 dep x0 x0 y0 p0 = Ok [(d, e)] ->
  dep !! 0 = Some d /\ y0 !! 0 = Some e.
Proof.
  unfold lambda_x0_y0_p0, lift1, lift2, getitem.
  destruct dep as [|d' dep]; simpl; [done|].
  destruct y0 as [|a y0]; simpl; [done|].
  destruct p0 as [|b p0]; simpl; [done|].
  intros [= <- <-]. split; [done|]. f_equal.
  unfold sp_exp, R_HasExp. replace (- b * (x0 - x0))%R with 0%R by ring.
  rewrite exp_0. ring.
Qed.

Lemma lambda_x0_y0_p0_initial_value_witness :
  exists d e,
    lambda_x0_y0_p0 [0%R] 1%R 1%R [5%R] [7; 3; 2; 1]%R = Ok [(d, e)] /\
    [0%R] !! 0 = Some d /\ [5%R] !! 0 = Some e.
Proof.
  eexists _, _. split; [reflexivity|].
  apply (lambda_x0_y0_p0_initial_value [0%R] 1%R [5%R] [7; 3; 2; 1]%R). reflexivity.
Defined.

(** ** What the functions of the notebooks ask for *)

Lemma steps_ok_snoc_inv P tr e : steps_ok P (tr ++ [e]) -> steps_ok P tr /\ P tr e.
Proof.
  intros Hs. split.
  - intros pre e' post ->. apply (Hs pre e' (post ++ [e])). by rewrite <- app_assoc.
  - apply (Hs tr e []). done.
Qed.

Lemma integrate_calls_app tr1 tr2 :
  integrate_calls (tr1 ++ tr2) = integrate_calls tr1 ++ integrate_calls tr2.
Proof. unfold integrate_calls. apply omap_app. Qed.

Lemma integrate_calls_elem c r tr :
  EvCall c r ∈ tr -> calls_method c "integrate" = true -> c ∈ integrate_calls tr.
Proof.
  intros Hin Hc. unfold integrate_calls. apply list_elem_of_omap.
  exists (EvCall c r). split; [done|]. by rewrite Hc.
Qed.

Lemma length_of_mono tr evs v n : length_of tr v n -> length_of (tr ++ evs) v n.
Proof.
  unfold length_of. intros [?|[?|[?|Hin]]]; eauto.
  do 3 right. apply elem_of_app. by left.
Qed.

Section FunctionRules.
Context {World : Type} `{Library World}.
Implicit Types (h : gmap nat (gmap string value)) (w : World) (tr : list event).

Lemma ok_call {X Y} (m : Py World X) (k : X -> Py World Y) Ψ Φ s :
  wp m (ok_then Ψ) s ->
  (forall x s1, Ψ x s1 -> wp (k x) (ok_then Φ) s1) ->
  wp (m ≫= k) (ok_then Φ) s.
Proof.
  intros Hm Hk. apply wp_bind. unfold wp in *.
  destruct (m s) as [[x|e] s1]; simpl in *.
  - apply Hk. by apply Hm.
  - intros y Hy. discriminate Hy.
Qed.

Lemma len_reply_cases r h w tr :
  (len_reply r (State h w tr)).2 = State h w tr /\
  forall n, (len_reply r (State h w tr)).1 = Ok n -> (0 <= n)%Z /\ r = num n.
Proof.
  destruct r; try done. destruct q as [a b]. unfold len_reply, raise. cbn [Qden Qnum].
  destruct (Pos.eqb b 1) eqn:Eb; cbn [negb]; [|done].
  destruct (Z.ltb a 0) eqn:Ea; [done|].
  split; [done|]. intros n [= <-]. apply Pos.eqb_eq in Eb as ->. split; [lia|done].
Qed.

(** [len(v)]: the events it adds and what it returns. *)
Lemma py_len_cases v h w tr :
  exists w' evs,
    (py_len v (State h w tr)).2 = State h w' (tr ++ evs) /\
    (evs = [] \/ exists r, evs = [EvCall (Call (Op "len") [v] []) r]) /\
    forall n, (py_len v (State h w tr)).1 = Ok n ->
      (0 <= n)%Z /\ length_of (tr ++ evs) v n /\
      (evs = [] \/ evs = [EvCall (Call (Op "len") [v] []) (Ok (num n))]).
Proof.
  assert (Hobj : forall v,
    let m := call_arr (Call (Op "len") [v] []) ≫= len_reply in
    exists w' evs,
      (m (State h w tr)).2 = State h w' (tr ++ evs) /\
      (evs = [] \/ exists r, evs = [EvCall (Call (Op "len") [v] []) r]) /\
      forall n, (m (State h w tr)).1 = Ok n ->
        (0 <= n)%Z /\ length_of (tr ++ evs) v n /\
        (evs = [] \/ evs = [EvCall (Call (Op "len") [v] []) (Ok (num n))])).
  { intros v0 m. subst m. unfold mbind, Py_bind, call_arr. simpl.
    destruct (arr (Call (Op "len") [v0] []) w) as [[r|e] w']; simpl.
    - destruct (len_reply_cases r h w' (tr ++ [EvCall (Call (Op "len") [v0] []) (Ok r)]))
        as [E Hn].
      exists w', [EvCall (Call (Op "len") [v0] []) (Ok r)]. rewrite E.
      split; [done|]. split; [eauto|].
      intros n Hok. destruct (Hn n Hok) as [Hpos ->]. split; [done|]. split; [|by right].
      do 3 right. apply elem_of_app. right. by apply list_elem_of_singleton.
    - exists w', [EvCall (Call (Op "len") [v0] []) (Raise e)]. split; [done|].
      split; [eauto|done]. }
  destruct v; simpl; try apply Hobj;
    try (exists w, []; rewrite app_nil_r; split; [done|]; split; [by left|done]).
  - exists w, []. rewrite app_nil_r. split; [done|]. split; [by left|].
    intros n [= <-]. split; [lia|]. split; [|by left]. right. left. eauto.
  - exists w, []. rewrite app_nil_r. split; [done|]. split; [by left|].
    intros n [= <-]. split; [lia|]. split; [|by left]. left. eauto.
  - exists w, []. rewrite app_nil_r. split; [done|]. split; [by left|].
    intros n [= <-]. split; [lia|]. split; [|by left]. left. eauto.
  - exists w, []. rewrite app_nil_r. split; [done|]. split; [by left|].
    intros n [= <-]. split; [lia|]. split; [|by left]. do 2 right. left. eauto.
Qed.

Lemma py_len_quietly φ v :
  (forall r, φ (EvCall (Call (Op "len") [v] []) r)) ->
  quietly φ (py_len v) (fun n tr' => (0 <= n)%Z /\ length_of tr' v n).
Proof.
  intros Hφ h w tr. destruct (py_len_cases v h w tr) as (w' & evs & E & Hevs & Hn).
  exists w', evs. split; [done|]. split.
  - destruct Hevs as [->|[r ->]]; [constructor|]. by repeat constructor.
  - intros n Hok. destruct (Hn n Hok) as (? & ? & _). done.
Qed.

Lemma ok_py_len {X} v (k : Z -> Py World X) Φ h w tr :
  (forall n w' evs,
     (0 <= n)%Z -> length_of (tr ++ evs) v n ->
     evs = [] \/ evs = [EvCall (Call (Op "len") [v] []) (Ok (num n))] ->
     wp (k n) (ok_then Φ) (State h w' (tr ++ evs))) ->
  wp (py_len v ≫= k) (ok_then Φ) (State h w tr).
Proof.
  intros Hk. apply wp_bind. unfold wp.
  destruct (py_len_cases v h w tr) as (w' & evs & E & _ & Hn). rewrite E.
  destruct (py_len v (State h w tr)).1 as [n|e]; [|done].
  destruct (Hn n eq_refl) as (? & ? & ?). by apply Hk.
Qed.

End FunctionRules.

(** X9: the reference values that [rmsd] compares [x] with, [ref[4-len(x):]],
    are the last [len(x)] of the four when [len(x) <= 4].  For a longer [x]
    the start of the slice is negative and counts from the end: the slice
    has [len(x) - 4] values, at most four. *)
Theorem rmsd_reference_slice (n : Z) :
  (0 <= n)%Z ->
  let r := slice_from Transformations.ref (4 - n) in
  ((n <= 4)%Z ->
   r = drop (Z.to_nat (4 - n)) Transformations.ref /\ length r = Z.to_nat n) /\
  ((4 < n)%Z ->
   r = drop (Z.to_nat (8 - n)) Transformations.ref /\
   length r = Z.to_nat (Z.min 4 (n - 4))).
Proof.
  intros Hn r. subst r. unfold slice_from.
  change (Z.of_nat (length Transformations.ref)) with 4%Z.
  split; intros Hle.
  - destruct (4 - n <? 0)%Z eqn:E; [lia|].
    split; [done|]. rewrite length_drop. change (length Transformations.ref) with 4. lia.
  - destruct (4 - n <? 0)%Z eqn:E; [|lia].
    replace (Z.to_nat (Z.max 0 (4 - n + 4))) with (Z.to_nat (8 - n)) by lia.
    split; [done|]. rewrite length_drop. change (length Transformations.ref) with 4. lia.
Qed.

Lemma rmsd_reference_slice_witness :
  (0 <= 5)%Z /\
  slice_from Transformations.ref (4 - 5) = drop (Z.to_nat (8 - 5)) Transformations.ref /\
  length (slice_from Transformations.ref (4 - 5)) = Z.to_nat (Z.min 4 (5 - 4)).
Proof.
  assert (H5 : (0 <= 5)%Z) by lia.
  split; [exact H5|].
  apply (proj2 (rmsd_reference_slice 5 H5)). lia.
Defined.

Section FunctionSteps.
Context {World : Type} `{Library World}.
Implicit Types (h : gmap nat (gmap string value)) (w : World) (tr : list event).

(** X10: [rmsd(x)] leaves the dict objects alone and, when it returns, has made
    these calls and no others: [len(x)] if [x] is a library object, then
    [np.array] on the slice of [ref], the difference with [x], its square,
    [np.sum] and the power 0.5, each applied to the answer of the one
    before; the answer of the last is returned. *)
Theorem rmsd_steps x h w tr :
  let rs := Transformations.rmsd x (State h w tr) in
  forall v, rs.1 = Ok v ->
  exists n a diff sq sm evs,
    (0 <= n)%Z /\ length_of (trace rs.2) x n /\ heap rs.2 = h /\
    (evs = [] \/ evs = [EvCall (Call (Op "len") [x] []) (Ok (num n))]) /\
    trace rs.2 = tr ++ evs ++ rmsd_calls x n a diff sq sm v.
Proof.
  intros rs. subst rs.
  cut (wp (Transformations.rmsd x)
          (ok_then (fun v s' =>
             exists n a diff sq sm evs,
               (0 <= n)%Z /\ length_of (trace s') x n /\ heap s' = h /\
               (evs = [] \/ evs = [EvCall (Call (Op "len") [x] []) (Ok (num n))]) /\
               trace s' = tr ++ evs ++ rmsd_calls x n a diff sq sm v))
          (State h w tr)).
  { intros Hwp. exact Hwp. }
  unfold Transformations.rmsd, np, op.
  apply ok_py_len. intros n w1 evs Hn Hlen Hevs.
  apply ok_arr. intros a w2. apply ok_arr. intros diff w3.
  apply ok_arr. intros sq w4. apply ok_arr. intros sm w5.
  apply wp_arr. intros [v|e] w6; [|done]. intros ? [= <-].
  exists n, a, diff, sq, sm, evs. cbn [trace heap].
  split; [done|]. split; [by do 5 apply length_of_mono|]. split; [done|].
  split; [done|]. unfold rmsd_calls. by rewrite <- !app_assoc.
Qed.

End FunctionSteps.

Lemma rmsd_steps_witness :
  let rs := Transformations.rmsd (H := toy toy_info 4) (VObj 0) (State ∅ 1 []) in
  rs.1 = Ok (VObj 5) /\
  exists n a diff sq sm evs,
    (0 <= n)%Z /\ length_of (trace rs.2) (VObj 0) n /\ heap rs.2 = ∅ /\
    (evs = [] \/ evs = [EvCall (Call (Op "len") [VObj 0] []) (Ok (num n))]) /\
    trace rs.2 = [] ++ evs ++ rmsd_calls (VObj 0) n a diff sq sm (VObj 5).
Proof.
  intros rs.
  assert (Hok : rs.1 = Ok (VObj 5)) by (vm_compute; reflexivity).
  split; [exact Hok|].
  pose proof (rmsd_steps (H := toy toy_info 4) (VObj 0) ∅ 1 []) as Hs.
  cbv zeta in Hs. exact (Hs (VObj 5) Hok).
Defined.

(** ** The one integration of [integrate_and_plot] *)

Lemma asks_integrates_once c0 cplot pre e : asks e -> integrates_once c0 cplot pre e.
Proof. destruct e as [n|[[] a kw] r]; simpl; try done. Qed.

Lemma quiet_integrates_once c0 cplot pre e : quiet e -> integrates_once c0 cplot pre e.
Proof. destruct e as [n|[[] a kw] r]; simpl; try done. Qed.

Ltac once_call :=
  unfold integrates_once; cbn -[app];
  split; intros E; first [discriminate E | split; reflexivity | reflexivity].

Ltac once_step :=
  kept_step_with ltac:(idtac; once_call) asks_integrates_once quiet_integrates_once.

Lemma integrates_once_calls c0 cplot tr :
  steps_ok (integrates_once c0 cplot) tr ->
  integrate_calls tr = [] \/ integrate_calls tr = [c0].
Proof.
  induction tr as [|e tr IH] using rev_ind; [by left|].
  intros Hs. apply steps_ok_snoc_inv in Hs as [Hs He].
  rewrite integrate_calls_app. destruct e as [n|c r]; simpl.
  - rewrite app_nil_r. by apply IH.
  - destruct (calls_method c "integrate") eqn:Hc; simpl.
    + destruct He as [He _]. destruct (He Hc) as [-> ->]. by right.
    + rewrite app_nil_r. by apply IH.
Qed.

Section IntegratesOnce.
Context {World : Type} `{Library World}.

Lemma integrate_and_plot_once_steps
    odesys integrator tout y0 k interpolate stiffness kwargs h w :
  wp (Transformations.integrate_and_plot odesys integrator tout y0 k interpolate stiffness kwargs)
     (kept (integrates_once
              (Call (Meth odesys "integrate") [tout; y0; k] (("integrator", integrator) :: kwargs))
              (Call (Meth odesys "plot_result") [] [("interpolate", VBool interpolate)]))
           any_heap [])
     (State h w []).
Proof.
  unfold Transformations.integrate_and_plot.
  pose proof lib_keeps_any. pose proof pop_keeps_any.
  assert (HI : any_heap h) by done.
  match goal with
  | |- wp _ (kept ?P _ _) _ => assert (Hinv : steps_ok P []) by apply steps_ok_nil
  end.
  repeat once_step.
Qed.

(** X11: [integrate_and_plot] integrates once: the request is
    [odesys.integrate(tout, y0, k, integrator=integrator, **kwargs)], and
    there is none only if [plt.figure] raised.  The keywords of the caller
    go to this request only: both [plot_result] requests are
    [odesys.plot_result(interpolate=interpolate)]. *)
Theorem integrate_and_plot_integrates_once
    odesys integrator tout y0 k interpolate stiffness kwargs h (w : World) :
  let s' := Transformations.integrate_and_plot odesys integrator tout y0 k
              interpolate stiffness kwargs (State h w []) in
  (integrate_calls (trace s'.2)
   = [Call (Meth odesys "integrate") [tout; y0; k] (("integrator", integrator) :: kwargs)] \/
   (integrate_calls (trace s'.2) = [] /\ is_ok s'.1 = false)) /\
  (forall c r, EvCall c r ∈ trace s'.2 -> calls_method c "plot_result" = true ->
     c = Call (Meth odesys "plot_result") [] [("interpolate", VBool interpolate)]).
Proof.
  intros s'.
  destruct (integrate_and_plot_once_steps odesys integrator tout y0 k
              interpolate stiffness kwargs h w) as (Hs & _ & _).
  fold s' in Hs. split.
  - destruct (integrates_once_calls _ _ _ Hs) as [E|E]; [|by left].
    right. split; [done|].
    destruct s'.1 as [[[n info] e]|e] eqn:Hok; [|done].
    destruct (integrate_and_plot_unpacks odesys integrator tout y0 k interpolate stiffness
                kwargs h w _ Hok) as (c & r & Hc & Hin & _).
    fold s' in Hin. apply integrate_calls_elem in Hin; [|done].
    rewrite E in Hin. by apply elem_of_nil in Hin.
  - intros c r Hin Hc.
    destruct (steps_ok_elem _ _ _ Hs Hin) as (pre & post & _ & _ & Hp). by apply Hp.
Qed.

End IntegratesOnce.

(** ** The stiffness panel of [integrate_and_plot] *)

Lemma asks_stiffness flag pre e : asks e -> stiffness_only_if flag pre e.
Proof. destruct e as [n|[[] a kw] r]; simpl; try done. Qed.

Lemma quiet_stiffness flag pre e : quiet e -> stiffness_only_if flag pre e.
Proof.
  destruct e as [n|[[] a kw] r]; simpl; try done.
  unfold is_stiffness_panel, calls_method, calls_fn. simpl. by intros [-> | ->].
Qed.

Ltac stiffness_call :=
  unfold stiffness_only_if, is_stiffness_panel; cbn -[app]; done.

Ltac stiffness_step :=
  kept_step_with ltac:(idtac; stiffness_call) asks_stiffness quiet_stiffness.

Section StiffnessPanel.
Context {World : Type} `{Library World}.

Lemma integrate_and_plot_stiffness_only_if
    odesys integrator tout y0 k interpolate stiffness kwargs h w :
  wp (Transformations.integrate_and_plot odesys integrator tout y0 k interpolate stiffness kwargs)
     (kept (stiffness_only_if stiffness) any_heap []) (State h w []).
Proof.
  unfold Transformations.integrate_and_plot.
  pose proof lib_keeps_any. pose proof pop_keeps_any.
  assert (HI : any_heap h) by done.
  destruct stiffness; cbv beta iota.
  - assert (Hinv : steps_ok (stiffness_only_if true) []) by apply steps_ok_nil.
    repeat stiffness_step.
  - assert (Hinv : steps_ok (stiffness_only_if false) []) by apply steps_ok_nil.
    repeat stiffness_step.
Qed.

Lemma integrate_and_plot_stiffness_if
    odesys integrator tout y0 k interpolate stiffness kwargs h w :
  wp (Transformations.integrate_and_plot odesys integrator tout y0 k interpolate stiffness kwargs)
     (ok_then (fun _ s' =>
        stiffness = true ->
        exists ratios xs r,
          EvCall (Call (Meth odesys "stiffness") [] []) (Ok ratios) ∈ trace s' /\
          EvCall (Call (Attr odesys "internal_xout") [] []) (Ok xs) ∈ trace s' /\
          EvCall (Call (Fn "plt.plot") [xs; ratios] []) (Ok r) ∈ trace s'))
     (State h w []).
Proof.
  unfold Transformations.integrate_and_plot. repeat ok_step.
  - cbn [trace]. intros _.
    match goal with
    | |- context [EvCall (Call (Fn "plt.plot") [?xs; ?ratios] []) (Ok ?r)] =>
        exists ratios, xs, r
    end.
    repeat split; in_tr.
  - intros [=].
Qed.

(** X12: in [integrate_and_plot] the calls of the third panel
    ([odesys.stiffness()], [plt.yscale], [odesys.internal_xout] and
    [plt.plot]) are made only if [stiffness] is true; and if it is true and
    the function returns, [plt.plot] was given what [odesys.internal_xout]
    and [odesys.stiffness()] returned. *)
Theorem stiffness_panel_iff_stiffness
    odesys integrator tout y0 k interpolate stiffness kwargs h (w : World) :
  let s' := Transformations.integrate_and_plot odesys integrator tout y0 k
              interpolate stiffness kwargs (State h w []) in
  (forall c r, EvCall c r ∈ trace s'.2 -> is_stiffness_panel c = true -> stiffness = true) /\
  (forall n info e, s'.1 = Ok (n, info, e) -> stiffness = true ->
     exists ratios xs r,
       EvCall (Call (Meth odesys "stiffness") [] []) (Ok ratios) ∈ trace s'.2 /\
       EvCall (Call (Attr odesys "internal_xout") [] []) (Ok xs) ∈ trace s'.2 /\
       EvCall (Call (Fn "plt.plot") [xs; ratios] []) (Ok r) ∈ trace s'.2).
Proof.
  intros s'. split.
  - intros c r Hin Hc.
    destruct (integrate_and_plot_stiffness_only_if odesys integrator tout y0 k
                interpolate stiffness kwargs h w) as (Hs & _ & _).
    destruct (steps_ok_elem _ _ _ Hs Hin) as (pre & post & _ & Hp). by apply Hp.
  - intros n info e Hok.
    exact (integrate_and_plot_stiffness_if odesys integrator tout y0 k interpolate
             stiffness kwargs h w _ Hok).
Qed.

End StiffnessPanel.

Lemma stiffness_panel_iff_stiffness_witness :
  let s' := Transformations.integrate_and_plot (H := toy toy_info 4) (VObj 0) (VStr "cvode")
              (VNum 1) (VList []) (VList []) false true [] (State ∅ 1 []) in
  s'.1 = Ok (4%Z, VDict 4, VObj 27) /\
  exists ratios xs r,
    EvCall (Call (Meth (VObj 0) "stiffness") [] []) (Ok ratios) ∈ trace s'.2 /\
    EvCall (Call (Attr (VObj 0) "internal_xout") [] []) (Ok xs) ∈ trace s'.2 /\
    EvCall (Call (Fn "plt.plot") [xs; ratios] []) (Ok r) ∈ trace s'.2.
Proof.
  intros s'.
  assert (Hok : s'.1 = Ok (4%Z, VDict 4, VObj 27)) by (vm_compute; reflexivity).
  split; [exact Hok|].
  pose proof (stiffness_panel_iff_stiffness (H := toy toy_info 4) (VObj 0) (VStr "cvode")
                (VNum 1) (VList []) (VList []) false true [] ∅ 1) as (_ & Hs).
  cbv zeta in Hs. exact (Hs 4%Z (VDict 4) (VObj 27) Hok eq_refl).
Defined.

(** ** What [integrate_and_plot] returns first *)

Ltac len_step :=
  unfold import_, from_import; unfold fn, meth, attr, np, op;
  lazymatch goal with
  | |- wp (mbind _ (py_len _)) _ _ =>
      eapply ok_quietly;
      [apply (py_len_quietly asks); intros ?; simpl; auto|]; intros ? ? ? [? ?]
  | _ => ok_step
  end.

Section ReturnedLength.
Context {World : Type} `{Library World}.

Lemma integrate_and_plot_length odesys integrator tout y0 k interpolate stiffness kwargs h w :
  wp (Transformations.integrate_and_plot odesys integrator tout y0 k interpolate stiffness kwargs)
     (ok_then (fun '(n, info, e) s' =>
        (0 <= n)%Z /\
        exists c r xout yout,
          calls_method c "integrate" = true /\ EvCall c (Ok r) ∈ trace s' /\
          elements_of (trace s') r [xout; yout; info] /\ length_of (trace s') xout n))
     (State h w []).
Proof.
  unfold Transformations.integrate_and_plot. repeat len_step.
  all: cbn [trace]; split; [done|].
  all: match goal with
       | Hel : elements_of _ ?r [?xout; ?yout; _] |- context [EvCall ?c (Ok ?r)] =>
           exists c, r, xout, yout
       end.
  all: split; [reflexivity|]; split; [in_tr|]; split; [find_elements|].
  all: repeat first [assumption | apply length_of_mono].
Qed.

(** X13: the first value that [integrate_and_plot] returns is [len(xout)] for
    the first of the three values of its integration: the number of
    elements if that is a list or a tuple, the library's answer if it is an
    array object; it is never negative. *)
Theorem integrate_and_plot_returns_length
    odesys integrator tout y0 k interpolate stiffness kwargs h (w : World) n info e :
  let s' := Transformations.integrate_and_plot odesys integrator tout y0 k
              interpolate stiffness kwargs (State h w []) in
  s'.1 = Ok (n, info, e) ->
  (0 <= n)%Z /\
  exists c r xout yout,
    calls_method c "integrate" = true /\ EvCall c (Ok r) ∈ trace s'.2 /\
    elements_of (trace s'.2) r [xout; yout; info] /\ length_of (trace s'.2) xout n.
Proof.
  intros s' Hok.
  exact (integrate_and_plot_length odesys integrator tout y0 k interpolate stiffness
           kwargs h w _ Hok).
Qed.

End ReturnedLength.

Lemma integrate_and_plot_returns_length_witness :
  let s' := Transformations.integrate_and_plot (H := toy toy_info 4) (VObj 0) (VStr "cvode")
              (VNum 1) (VList []) (VList []) false true [] (State ∅ 1 []) in
  s'.1 = Ok (4%Z, VDict 4, VObj 27) /\
  (0 <= 4)%Z /\
  exists c r xout yout,
    calls_method c "integrate" = true /\ EvCall c (Ok r) ∈ trace s'.2 /\
    elements_of (trace s'.2) r [xout; yout; VDict 4] /\ length_of (trace s'.2) xout 4.
Proof.
  intros s'.
  assert (Hok : s'.1 = Ok (4%Z, VDict 4, VObj 27)) by (vm_compute; reflexivity).
  split; [exact Hok|].
  pose proof (integrate_and_plot_returns_length (H := toy toy_info 4) (VObj 0) (VStr "cvode")
                (VNum 1) (VList []) (VList []) false true [] ∅ 1 4%Z (VDict 4) (VObj 27)) as Hs.
  cbv zeta in Hs. exact (Hs Hok).
Defined.

(** ** The requests of [solve_and_plot] *)

Lemma asks_request sparse nderiv flag kw pre e :
  asks e -> solve_and_plot_request sparse nderiv flag kw pre e.
Proof. destruct e as [n|[[] a k] r]; simpl; try done. Qed.

Ltac request_call :=
  unfold solve_and_plot_request; cbn -[app];
  split; intros E;
  first [ discriminate E
        | eexists; split; [reflexivity|];
          first [left; split; reflexivity | right; reflexivity]
        | split; reflexivity ].

Ltac request_step :=
  kept_step_with ltac:(idtac; request_call) asks_request asks_request.

Section Requests.
Context {World : Type} `{Library World}.

Lemma solve_and_plot_request_steps odesys1 sparse roots nderiv interpolate kwargs h w :
  wp (VanDerPol.solve_and_plot odesys1 sparse roots nderiv interpolate kwargs)
     (kept (solve_and_plot_request sparse nderiv
              (VanDerPol.interpolate_flag interpolate nderiv) kwargs) any_heap [])
     (State h w []).
Proof.
  unfold VanDerPol.solve_and_plot.
  pose proof lib_keeps_any. pose proof pop_keeps_any.
  assert (HI : any_heap h) by done.
  destruct (VanDerPol.interpolate_flag interpolate nderiv) eqn:Hflag; cbv beta iota.
  - assert (Hinv : steps_ok (solve_and_plot_request sparse nderiv true kwargs) [])
      by apply steps_ok_nil.
    repeat request_step.
  - assert (Hinv : steps_ok (solve_and_plot_request sparse nderiv false kwargs) [])
      by apply steps_ok_nil.
    repeat request_step.
Qed.

(** X14: every integration that [solve_and_plot] asks for starts from [y0] with
    the parameter [[mu]] and uses cvode: the first on the grid [[0, tend]]
    with the caller's [sparse] and [nderiv], the reference one with
    [force_predefined] and 5000 steps.  The other keywords of the caller go
    to [plot_result], after the four that the function sets, and to no
    integration. *)
Theorem solve_and_plot_requests odesys1 sparse roots nderiv interpolate kwargs h (w : World) :
  let s' := VanDerPol.solve_and_plot odesys1 sparse roots nderiv interpolate kwargs
              (State h w []) in
  forall c r, EvCall c r ∈ trace s'.2 ->
    solve_and_plot_request sparse nderiv (VanDerPol.interpolate_flag interpolate nderiv)
      kwargs [] (EvCall c r).
Proof.
  intros s' c r Hin.
  destruct (solve_and_plot_request_steps odesys1 sparse roots nderiv interpolate kwargs h w)
    as (Hs & _ & _).
  destruct (steps_ok_elem _ _ _ Hs Hin) as (pre & post & _ & Hp). exact Hp.
Qed.

End Requests.

Lemma solve_and_plot_requests_witness :
  let s' := VanDerPol.solve_and_plot (H := toy toy_info 2) (VObj 0) (-1) VNone 1 None
              [("lines", VNum 0.3)] (State ∅ 1 []) in
  let c := Call (Meth (VObj 6) "plot_result") []
             [("interpolate", VBool true); ("m_lim", num 100); ("ls", VTuple [VStr "-"]);
              ("c", VTuple [VStr "k"; VStr "r"]); ("lines", VNum 0.3)] in
  EvCall c (Ok (VTuple [VObj 12; VObj 13])) ∈ trace s'.2 /\
  solve_and_plot_request (-1) 1 (VanDerPol.interpolate_flag None 1) [("lines", VNum 0.3)] []
    (EvCall c (Ok (VTuple [VObj 12; VObj 13]))).
Proof.
  intros s' c.
  assert (Hin : EvCall c (Ok (VTuple [VObj 12; VObj 13])) ∈ trace s'.2).
  { apply list_elem_of_lookup. exists 10. vm_compute. reflexivity. }
  split; [exact Hin|].
  pose proof (solve_and_plot_requests (H := toy toy_info 2) (VObj 0) (-1)%Z VNone 1%Z None
                [("lines", VNum 0.3)] ∅ 1) as Hs.
  cbv zeta in Hs. exact (Hs c _ Hin).
Defined.

(** ** The two colours of [solve_and_plot] *)

Section Colours.
Context {World : Type} `{Library World}.
Implicit Types (h : gmap nat (gmap string value)) (w : World) (tr : list event).

Lemma bind_ok {X Y} (m : Py World X) (k : X -> Py World Y) s y :
  ((m ≫= k) s).1 = Ok y -> exists x, (m s).1 = Ok x /\ (k x (m s).2).1 = Ok y.
Proof. unfold mbind, Py_bind. destruct (m s) as [[x|e] s1]; simpl; [eauto|done]. Qed.

(** A loop over [enumerate(ys)] whose body starts with [c[idx]] returns
    only if [c] has an entry for every element of [ys]. *)
Lemma for_each_indexed_ok {X} (c : list X) (body : nat -> value -> X -> Py World unit)
    ys a s :
  (for_each (zip (seq a (length ys)) ys)
     (fun '(idx, y) => ci ← lift_res (getitem c idx); body idx y ci) s).1 = Ok tt ->
  ys = [] \/ a + length ys <= length c.
Proof.
  revert a s. induction ys as [|y ys IH]; intros a s; [by left|].
  cbn [length seq zip_with for_each]. intros Hok. right.
  apply bind_ok in Hok as (u & Hb & Hrest).
  apply bind_ok in Hb as (ci & Hci & _).
  unfold lift_res in Hci. simpl in Hci.
  assert (a < length c) as Ha.
  { destruct (le_lt_dec (length c) a) as [Hge|]; [|done].
    rewrite (getitem_ge c a Hge) in Hci. discriminate. }
  destruct u. apply IH in Hrest as [->|Hle]; simpl; lia.
Qed.

Lemma ok_for_each_indexed {X Y} (c : list X) (body : nat -> value -> X -> Py World unit)
    ys (k : unit -> Py World Y) Φ h w tr :
  faithful (for_each (enumerate ys)
              (fun '(idx, y) => ci ← lift_res (getitem c idx); body idx y ci)) ->
  (length ys <= length c ->
   forall h' w' evs, wp (k tt) (ok_then Φ) (State h' w' (tr ++ evs))) ->
  wp (for_each (enumerate ys)
        (fun '(idx, y) => ci ← lift_res (getitem c idx); body idx y ci) ≫= k)
     (ok_then Φ) (State h w tr).
Proof.
  intros Hf Hk. apply wp_bind. unfold wp.
  destruct (Hf (State h w tr)) as (evs & E & _).
  pose proof (for_each_indexed_ok c body ys 0 (State h w tr)) as Hlen.
  unfold enumerate in *.
  destruct (for_each _ _ (State h w tr)) as [[[]|e] [h' w' tr']]; simpl in *; [|done].
  subst tr'. apply Hk. destruct Hlen as [->|?]; [done|simpl; lia|lia].
Qed.

End Colours.

Ltac colours_step :=
  unfold import_, from_import; unfold fn, meth, attr, np, op;
  lazymatch goal with
  | |- wp (mbind _ (for_each (enumerate _) _)) _ _ =>
      apply ok_for_each_indexed; [by faithful_block | intros ? ? ? ?]
  | _ => ok_step
  end.

Section TwoCurves.
Context {World : Type} `{Library World}.

Lemma solve_and_plot_curves odesys1 sparse roots nderiv interpolate kwargs h w :
  wp (VanDerPol.solve_and_plot odesys1 sparse roots nderiv interpolate kwargs)
     (ok_then (fun '(info2, xplot, yplot) s' =>
        VanDerPol.interpolate_flag interpolate nderiv = true ->
        exists yref yT ys ydiff dT ds,
          EvCall (Call (Attr yref "T") [] []) (Ok yT) ∈ trace s' /\
          elements_of (trace s') yT ys /\ length ys <= 2 /\
          EvCall (Call (Op "-") [yplot; yref] []) (Ok ydiff) ∈ trace s' /\
          EvCall (Call (Attr ydiff "T") [] []) (Ok dT) ∈ trace s' /\
          elements_of (trace s') dT ds /\ length ds <= 2))
     (State h w []).
Proof.
  unfold VanDerPol.solve_and_plot. repeat colours_step.
  - cbn [trace]. cbv beta in *. intros _. eexists _, _, _, _, _, _. repeat split.
    4: in_tr. 1: in_tr. 1: find_elements. 1: simpl in *; lia.
    1: in_tr. 1: find_elements. simpl in *; lia.
  - intros [=].
Qed.

(** X15: [solve_and_plot] has two colours, [c = ('k', 'r')], and looks one up
    for every row of [yref.T] and of [ydiff.T]: with [interpolate] true it
    returns only if both have at most two rows (a third row raises
    [IndexError]). *)
Theorem solve_and_plot_draws_two_curves
    odesys1 sparse roots nderiv interpolate kwargs h (w : World) info2 xplot yplot :
  let s' := VanDerPol.solve_and_plot odesys1 sparse roots nderiv interpolate kwargs
              (State h w []) in
  s'.1 = Ok (info2, xplot, yplot) ->
  VanDerPol.interpolate_flag interpolate nderiv = true ->
  exists yref yT ys ydiff dT ds,
    EvCall (Call (Attr yref "T") [] []) (Ok yT) ∈ trace s'.2 /\
    elements_of (trace s'.2) yT ys /\ length ys <= 2 /\
    EvCall (Call (Op "-") [yplot; yref] []) (Ok ydiff) ∈ trace s'.2 /\
    EvCall (Call (Attr ydiff "T") [] []) (Ok dT) ∈ trace s'.2 /\
    elements_of (trace s'.2) dT ds /\ length ds <= 2.
Proof.
  intros s' Hok.
  exact (solve_and_plot_curves odesys1 sparse roots nderiv interpolate kwargs h w _ Hok).
Qed.

End TwoCurves.

Lemma solve_and_plot_draws_two_curves_witness :
  let s' := VanDerPol.solve_and_plot (H := toy toy_info 2) (VObj 0) (-1) VNone 1 None []
              (State ∅ 1 []) in
  s'.1 = Ok (VDict 9, VObj 12, VObj 13) /\
  exists yref yT ys ydiff dT ds,
    EvCall (Call (Attr yref "T") [] []) (Ok yT) ∈ trace s'.2 /\
    elements_of (trace s'.2) yT ys /\ length ys <= 2 /\
    EvCall (Call (Op "-") [VObj 13; yref] []) (Ok ydiff) ∈ trace s'.2 /\
    EvCall (Call (Attr ydiff "T") [] []) (Ok dT) ∈ trace s'.2 /\
    elements_of (trace s'.2) dT ds /\ length ds <= 2.
Proof.
  intros s'.
  assert (Hok : s'.1 = Ok (VDict 9, VObj 12, VObj 13)) by (vm_compute; reflexivity).
  split; [exact Hok|].
  pose proof (solve_and_plot_draws_two_curves (H := toy toy_info 2) (VObj 0) (-1)%Z VNone
                1%Z None [] ∅ 1 (VDict 9) (VObj 12) (VObj 13)) as Hs.
  cbv zeta in Hs. exact (Hs Hok eq_refl).
Defined.

(** With three rows the third colour is missing. *)
Example three_rows_raise :
  (VanDerPol.solve_and_plot (H := toy toy_info 3) (VObj 0) (-1) VNone 1 None []
     (State ∅ 1 [])).1 = Raise IndexError.
Proof. vm_compute. reflexivity. Qed.

(** ** The callback that simplifies the transformed expressions *)

Lemma powsimp_of_mono tr evs e v : powsimp_of tr e v -> powsimp_of (tr ++ evs) e v.
Proof.
  intros (x & H1 & H2). exists x. split; apply elem_of_app; by left.
Qed.

Section LambdaExprs.
Context {World : Type} `{Library World}.
Implicit Types (h : gmap nat (gmap string value)) (w : World) (tr : list event).

Lemma powsimp_each_faithful es : faithful (Transformations.powsimp_each es).
Proof.
  induction es as [|e es IH]; simpl; [apply faithful_ret|].
  apply faithful_bind; [apply faithful_meth|]. intros x.
  apply faithful_bind; [apply faithful_fn|]. intros v.
  apply faithful_bind; [apply IH|]. intros vs. apply faithful_ret.
Qed.

Lemma lambda_exprs_faithful exprs : faithful (Transformations.lambda_exprs exprs).
Proof.
  unfold Transformations.lambda_exprs. pose proof powsimp_each_faithful. faithful_block.
Qed.

Lemma powsimp_each_maps es h w tr :
  wp (Transformations.powsimp_each es)
     (ok_then (fun vs s' =>
        tr `prefix_of` trace s' /\ Forall2 (powsimp_of (trace s')) es vs))
     (State h w tr).
Proof.
  revert h w tr. induction es as [|e es IH]; intros h w tr; simpl.
  - apply ok_ret. split; [done|constructor].
  - unfold meth, fn. apply ok_lib. intros x h1 w1. apply ok_lib. intros v h2 w2.
    eapply ok_call; [apply IH|]. intros vs [h3 w3 tr3] [[evs E] Hall]. simpl in E. subst tr3.
    apply ok_ret. cbn [trace]. split; [solve_prefix|].
    constructor; [|done]. exists x. split; in_tr.
Qed.

(** X16: [lambda exprs: [sp.powsimp(expr.expand(), force=True) for expr in exprs]]
    returns a list with one entry for each element of [exprs], in order:
    what [sp.powsimp(..., force=True)] returned for what [expr.expand()]
    returned.  A call that raises ends it with the same exception. *)
Theorem lambda_exprs_maps exprs h w tr :
  let rs := Transformations.lambda_exprs exprs (State h w tr) in
  (forall v, rs.1 = Ok v ->
     exists es vs,
       elements_of (trace rs.2) exprs es /\ v = VList vs /\
       Forall2 (powsimp_of (trace rs.2)) es vs) /\
  propagated rs.1 (events_of (Transformations.lambda_exprs exprs) (State h w tr)).
Proof.
  intros rs. split.
  - cut (wp (Transformations.lambda_exprs exprs)
           (ok_then (fun v s' =>
              exists es vs,
                elements_of (trace s') exprs es /\ v = VList vs /\
                Forall2 (powsimp_of (trace s')) es vs))
           (State h w tr)).
    { intros Hwp. exact Hwp. }
    unfold Transformations.lambda_exprs.
    eapply ok_quietly; [apply quietly_iterate|]. intros es w1 evs Hel.
    eapply ok_call; [apply powsimp_each_maps|].
    intros vs [h2 w2 tr2] [Hpre Hall]. simpl in Hpre.
    apply ok_ret. exists es, vs. cbn [trace].
    cbv beta in Hel. split; [exact (elements_of_prefix _ _ _ _ Hel Hpre)|]. done.
  - destruct (lambda_exprs_faithful exprs (State h w tr)) as (evs & E & Hp).
    by rewrite (events_of_app _ _ _ E).
Qed.

End LambdaExprs.

Lemma lambda_exprs_maps_witness :
  let rs := Transformations.lambda_exprs (H := toy toy_info 4) (VList [VObj 0; VObj 1])
              (State ∅ 2 []) in
  rs.1 = Ok (VList [VObj 3; VObj 5]) /\
  exists es vs,
    elements_of (trace rs.2) (VList [VObj 0; VObj 1]) es /\
    VList [VObj 3; VObj 5] = VList vs /\
    Forall2 (powsimp_of (trace rs.2)) es vs.
Proof.
  intros rs.
  assert (Hok : rs.1 = Ok (VList [VObj 3; VObj 5])) by (vm_compute; reflexivity).
  split; [exact Hok|].
  pose proof (lambda_exprs_maps (H := toy toy_info 4) (VList [VObj 0; VObj 1]) ∅ 2 [])
    as [Hs _].
  cbv zeta in Hs. exact (Hs _ Hok).
Defined.

(** ** Every call of the notebooks is tidy *)

Lemma bare_tidy pre e : bare e -> tidy pre e.
Proof.
  destruct e as [n|[t a kw] r]; simpl; [done|]. intros [-> Hq].
  unfold keywords_distinct, subplot_in_grid, declares_sizes, calls_fn, calls_method. simpl.
  split; [constructor|].
  destruct t; try done. destruct Hq as [-> | ->]; split; intros E; discriminate E.
Qed.

Section BareHelpers.
Context {World : Type} `{Library World}.

Lemma bare_op name a r : bare (EvCall (Call (Op name) a []) r).
Proof. done. Qed.

Lemma bare_iter_reply v r :
  quietly bare (iter_reply r : Py World _)
    (fun vs tr' => forall tr, EvCall (Call (Op "iter") [v] []) (Ok r) ∈ tr ->
                              tr `prefix_of` tr' -> elements_of tr' v vs).
Proof.
  destruct r; simpl; try apply quietly_raise.
  apply quietly_ret. intros tr' tr Hin [evs ->]. do 4 right.
  apply elem_of_app. by left.
Qed.

Lemma bare_iterate v : quietly bare (iterate v) (fun vs tr' => elements_of tr' v vs).
Proof.
  destruct v; simpl; try apply quietly_raise.
  - apply quietly_ret. intros tr. right. right. left. eauto.
  - apply quietly_ret. intros tr. by left.
  - apply quietly_ret. intros tr. right. by left.
  - eapply quietly_then; [|intros r; apply bare_iter_reply].
    apply quietly_arr; [intros r; apply bare_op|].
    intros v tr. apply elem_of_app. right. by apply list_elem_of_singleton.
  - eapply quietly_then; [|intros r; apply bare_iter_reply].
    apply quietly_arr; [intros r; apply bare_op|].
    intros v tr. apply elem_of_app. right. by apply list_elem_of_singleton.
  - intros h w tr. exists w, []. rewrite app_nil_r. simpl.
    repeat split; [constructor|]. intros vs [= <-]. do 3 right. left. eauto.
Qed.

Lemma bare_unpack2 v :
  quietly bare (unpack2 v) (fun '(a, b) tr' => elements_of tr' v [a; b]).
Proof.
  eapply quietly_then; [apply bare_iterate|].
  intros [|a [|b [|c vs]]]; simpl; try apply quietly_raise.
  apply quietly_ret. intros tr' tr Hel Hpre. by eapply elements_of_prefix.
Qed.

Lemma bare_unpack3 v :
  quietly bare (unpack3 v) (fun '(a, b, c) tr' => elements_of tr' v [a; b; c]).
Proof.
  eapply quietly_then; [apply bare_iterate|].
  intros [|a [|b [|c [|d vs]]]]; simpl; try apply quietly_raise.
  apply quietly_ret. intros tr' tr Hel Hpre. by eapply elements_of_prefix.
Qed.

Lemma bare_py_len v : quietly bare (py_len v) (fun _ _ => True).
Proof.
  eapply quietly_weaken; [apply py_len_quietly; intros r; apply bare_op|done].
Qed.

Lemma bare_py_add a b : quietly bare (py_add a b) (fun _ _ => True).
Proof.
  destruct a, b; simpl;
    first [ by apply quietly_ret
          | apply (quietly_arr _ _ (fun _ _ => True)); [intros r; apply bare_op|done] ].
Qed.

Lemma bare_py_tuple v : quietly bare (VanDerPol.py_tuple v) (fun _ _ => True).
Proof.
  eapply quietly_seq; [apply bare_iterate|]. intros vs. by apply quietly_ret.
Qed.

Lemma bare_rmsd x : quietly bare (Transformations.rmsd x) (fun _ _ => True).
Proof.
  unfold Transformations.rmsd, np, op.
  eapply quietly_seq; [apply bare_py_len|]. intros n.
  repeat (eapply quietly_seq;
          [apply (quietly_arr _ _ (fun _ _ => True)); [intros r; simpl; auto|done]|];
          intros ?).
  apply (quietly_arr _ _ (fun _ _ => True)); [intros r; simpl; auto|done].
Qed.

End BareHelpers.

Ltac solve_decidable := apply (bool_decide_unpack _); vm_compute; exact I.

Ltac tidy_call :=
  unfold tidy, keywords_distinct, subplot_in_grid, declares_sizes; cbn -[app];
  split; [first [assumption | solve_decidable]|];
  split;
  [ first [ intros E; discriminate E
          | intros _; eexists _, _, _; split; [reflexivity|lia] ]
  | first [ intros E; discriminate E
          | intros _; eexists; split; [vm_compute; reflexivity|solve_decidable] ] ].

Ltac tidy_step :=
  unfold import_, from_import; unfold fn, meth, attr, np, op;
  lazymatch goal with
  | |- wp (mbind _ (unpack3 _)) _ _ =>
      kept_quiet_step bare bare_tidy bare_unpack3; intros [[? ?] ?] ? ? ? ?
  | |- wp (mbind _ (unpack2 _)) _ _ =>
      kept_quiet_step bare bare_tidy bare_unpack2; intros [? ?] ? ? ? ?
  | |- wp (mbind _ (iterate _)) _ _ =>
      kept_quiet_step bare bare_tidy bare_iterate; intros ? ? ? ? ?
  | |- wp (mbind _ (py_len _)) _ _ =>
      kept_quiet_step bare bare_tidy bare_py_len; intros ? ? ? ? _
  | |- wp (mbind _ (py_add _ _)) _ _ =>
      kept_quiet_step bare bare_tidy bare_py_add; intros ? ? ? ? _
  | |- wp (mbind _ (VanDerPol.py_tuple _)) _ _ =>
      kept_quiet_step bare bare_tidy bare_py_tuple; intros ? ? ? ? _
  | |- wp (mbind _ (Transformations.rmsd _)) _ _ =>
      kept_quiet_step bare bare_tidy bare_rmsd; intros ? ? ? ? _
  | _ => kept_step_with ltac:(idtac; tidy_call) bare_tidy bare_tidy
  end.

Section Tidy.
Context {World : Type} `{Library World}.

Lemma integrate_and_plot_tidy odesys integrator tout y0 k interpolate stiffness kwargs
    h w tr :
  steps_ok tidy tr -> NoDup ("integrator" :: kwargs.*1) ->
  wp (Transformations.integrate_and_plot odesys integrator tout y0 k interpolate stiffness kwargs)
     (kept tidy any_heap tr) (State h w tr).
Proof.
  intros Hinv Hkw. unfold Transformations.integrate_and_plot.
  pose proof lib_keeps_any. pose proof pop_keeps_any.
  assert (HI : any_heap h) by done.
  destruct stiffness; cbv beta iota; repeat tidy_step.
Qed.

Lemma solve_and_plot_tidy odesys1 sparse roots nderiv interpolate kwargs h w tr :
  steps_ok tidy tr -> NoDup (["interpolate"; "m_lim"; "ls"; "c"] ++ kwargs.*1) ->
  wp (VanDerPol.solve_and_plot odesys1 sparse roots nderiv interpolate kwargs)
     (kept tidy any_heap tr) (State h w tr).
Proof.
  intros Hinv Hkw. unfold VanDerPol.solve_and_plot.
  pose proof lib_keeps_any. pose proof pop_keeps_any.
  assert (HI : any_heap h) by done.
  destruct (VanDerPol.interpolate_flag interpolate nderiv); cbv beta iota; repeat tidy_step.
Qed.

End Tidy.

Ltac tidy_fun_step :=
  lazymatch goal with
  | Hinv : steps_ok tidy ?tr
    |- wp (mbind _ (Transformations.integrate_and_plot _ _ _ _ _ _ _ _)) _ (State _ _ ?tr) =>
      eapply (kept_call tidy any_heap);
      [ solve_prefix
      | apply integrate_and_plot_tidy; [exact Hinv | solve_decidable]
      | clear Hinv; intros ? ? ? ? Hinv ? ]
  | Hinv : steps_ok tidy ?tr
    |- wp (mbind _ (VanDerPol.solve_and_plot _ _ _ _ _ _)) _ (State _ _ ?tr) =>
      eapply (kept_call tidy any_heap);
      [ solve_prefix
      | apply solve_and_plot_tidy; [exact Hinv | solve_decidable]
      | clear Hinv; intros ? ? ? ? Hinv ? ]
  | _ => tidy_step
  end.

Section NotebooksTidy.
Context {World : Type} `{Library World}.

Lemma transformations_tidy w : steps_ok tidy (trace (run Transformations.notebook w).2).
Proof.
  assert (Hinv : steps_ok tidy []) by apply steps_ok_nil.
  cut (wp Transformations.notebook (kept tidy any_heap []) (State ∅ w [])).
  { intros [Hk _]. exact Hk. }
  unfold Transformations.notebook.
  pose proof lib_keeps_any. pose proof pop_keeps_any.
  assert (HI : any_heap (∅ : gmap nat (gmap string value))) by done.
  repeat tidy_fun_step.
Qed.

Lemma van_der_pol_tidy w : steps_ok tidy (trace (run VanDerPol.notebook w).2).
Proof.
  assert (Hinv : steps_ok tidy []) by apply steps_ok_nil.
  cut (wp VanDerPol.notebook (kept tidy any_heap []) (State ∅ w [])).
  { intros [Hk _]. exact Hk. }
  unfold VanDerPol.notebook.
  pose proof lib_keeps_any. pose proof pop_keeps_any.
  assert (HI : any_heap (∅ : gmap nat (gmap string value))) by done.
  repeat tidy_fun_step.
Qed.

(** X17: no call of the notebooks gives a keyword twice, whatever the
    libraries answer: the keywords that [integrate_and_plot] and
    [solve_and_plot] are called with never collide with the ones these
    functions set themselves. *)
Theorem keywords_never_repeat w :
  steps_ok (every_call keywords_distinct) (trace (run Transformations.notebook w).2) /\
  steps_ok (every_call keywords_distinct) (trace (run VanDerPol.notebook w).2).
Proof.
  split; eapply steps_ok_mono; try apply transformations_tidy; try apply van_der_pol_tidy;
    by intros pre [n|c r] Ht; [|destruct Ht as (? & _)].
Qed.

(** X18: every [plt.subplot(rows, cols, index)] of the notebooks names a panel
    of its grid: [1 <= index <= rows*cols]. *)
Theorem subplots_within_grid w :
  steps_ok (every_call subplot_in_grid) (trace (run Transformations.notebook w).2) /\
  steps_ok (every_call subplot_in_grid) (trace (run VanDerPol.notebook w).2).
Proof.
  split; eapply steps_ok_mono; try apply transformations_tidy; try apply van_der_pol_tidy;
    by intros pre [n|c r] Ht; [|destruct Ht as (_ & ? & _)].
Qed.

End NotebooksTidy.

Lemma declared_sizes_accepted name ny np :
  (name, ny, np) ∈ declared_sizes ->
  forall (A : Type) (N : Num A) (E : HasExp A),
  exists g, callback_named name = Some g /\
    forall (t : A) (x p : list A),
      length x = Z.to_nat ny -> length p = Z.to_nat np ->
      exists r, g t x p = Ok r /\ length r = Z.to_nat ny.
Proof.
  intros Hin A N E. unfold declared_sizes in Hin.
  repeat (apply elem_of_cons in Hin as [[= -> -> ->]|Hin]);
    [..|by apply elem_of_nil in Hin]; eexists; (split; [reflexivity|]);
    intros t x p Hx Hp; rewrite Nat2Z.id in Hx, Hp;
    unfold f_ny, f_nparams, vdp1_ny, vdp1_nparams, f2_ny, f2_nparams in *.
  - destruct x as [|x0 [|x1 [|x2 [|x3 [|]]]]]; try discriminate Hx.
    destruct p as [|k0 [|k1 [|k2 [|k3 [|]]]]]; try discriminate Hp.
    eexists. split; reflexivity.
  - apply vdp1_ok; lia.
  - destruct (f2_ok t x p) as [r Hr]; [lia..|].
    exists r. split; [done|]. by rewrite (f2_length _ _ _ _ Hr).
Qed.

(** X19: every [from_callback] call of the notebooks passes one of the
    callbacks [f], [vdp1] and [f2] with two sizes, and on a state and
    parameters of these sizes that callback returns one entry per
    variable. *)
Theorem constructors_declare_accepted_sizes {World : Type} `{Library World} (w : World) :
  steps_ok (every_call declares_accepted_sizes) (trace (run Transformations.notebook w).2) /\
  steps_ok (every_call declares_accepted_sizes) (trace (run VanDerPol.notebook w).2).
Proof.
  assert (Hd : forall pre e, tidy pre e -> every_call declares_accepted_sizes pre e).
  { intros pre [n|c r]; [done|]. intros (_ & _ & Hc) Hfc.
    destruct (Hc Hfc) as ([[name ny] np] & Hs & Hin).
    exists name, ny, np. split; [done|]. by apply declared_sizes_accepted. }
  split; eapply steps_ok_mono; try apply transformations_tidy; try apply van_der_pol_tidy;
    exact Hd.
Qed.

(** ** The data of an integration fits the callback *)

Lemma accepts_f : accepts "f" 4 4.
Proof.
  intros A N E. eexists. split; [reflexivity|]. intros t x p Hx Hp.
  destruct x as [|x0 [|x1 [|x2 [|x3 [|]]]]]; try discriminate Hx.
  destruct p as [|k0 [|k1 [|k2 [|k3 [|]]]]]; try discriminate Hp.
  eexists. split; reflexivity.
Qed.

Lemma accepts_f2 : accepts "f2" 3 5.
Proof.
  intros A N E. eexists. split; [reflexivity|]. intros t x p Hx Hp.
  destruct (f2_ok t x p) as [r Hr]; [lia..|].
  exists r. split; [done|]. by rewrite (f2_length _ _ _ _ Hr).
Qed.

Lemma built_from_mono tr evs sys name :
  built_from tr sys name -> built_from (tr ++ evs) sys name.
Proof.
  intros [(c & Hc & Hn & Hin)|(c0 & sys0 & cb & Hc & Hn & Hin0 & Hin)].
  - left. exists c. repeat split; [done..|]. apply elem_of_app. by left.
  - right. exists c0, sys0, cb. repeat split; [done..| |]; apply elem_of_app; by left.
Qed.

Lemma asks_fits pre e : asks e -> fits_callback pre e.
Proof. destruct e as [n|[[] a kw] r]; simpl; try done. Qed.

Lemma quiet_fits pre e : quiet e -> fits_callback pre e.
Proof. destruct e as [n|[[] a kw] r]; simpl; try done. Qed.

Ltac find_built :=
  first [ eassumption
        | left; eexists; split; [|split; [|in_tr]]; reflexivity
        | right; eexists _, _, _;
          split; [|split; [|split; [|in_tr]]]; [| |in_tr]; reflexivity
        | apply built_from_mono; find_built ].

Ltac fits_call :=
  unfold fits_callback; cbn -[app]; intros ? E;
  first [ discriminate E
        | simplify_eq; eexists _, _, _;
          split; [find_built|]; split; [reflexivity|]; split; [reflexivity|];
          first [assumption | exact accepts_f | exact accepts_f2] ].

Ltac fits_step := kept_step_with ltac:(idtac; fits_call) asks_fits quiet_fits.

Section Fits.
Context {World : Type} `{Library World}.

Lemma integrate_and_plot_fits odesys integrator tout ys ps interpolate stiffness kwargs name
    h w tr :
  steps_ok fits_callback tr -> built_from tr odesys name ->
  accepts name (length ys) (length ps) ->
  wp (Transformations.integrate_and_plot odesys integrator tout (VList ys) (VList ps)
        interpolate stiffness kwargs)
     (kept fits_callback any_heap tr) (State h w tr).
Proof.
  intros Hinv Hsys Hacc. unfold Transformations.integrate_and_plot.
  pose proof lib_keeps_any. pose proof pop_keeps_any.
  assert (HI : any_heap h) by done.
  repeat fits_step.
Qed.

End Fits.

Ltac fits_fun_step :=
  lazymatch goal with
  | Hinv : steps_ok fits_callback ?tr
    |- wp (mbind _ (Transformations.integrate_and_plot _ _ _ _ _ _ _ _)) _ (State _ _ ?tr) =>
      eapply (kept_call fits_callback any_heap);
      [ solve_prefix
      | eapply integrate_and_plot_fits;
        [exact Hinv | find_built | first [exact accepts_f | exact accepts_f2]]
      | clear Hinv; intros ? ? ? ? Hinv ? ]
  | _ => fits_step
  end.

(** X20: in transformations.ipynb every integration request is made of a
    system that was built from [f] or [f2], directly or through
    [PartiallySolvedSystem], and gives initial values and parameters as
    lists of lengths on which that callback returns one entry per
    variable: four and four for [f], three and five for [f2]. *)
Theorem integrations_fit_the_callback {World : Type} `{Library World} (w : World) :
  steps_ok fits_callback (trace (run Transformations.notebook w).2).
Proof.
  assert (Hinv : steps_ok fits_callback []) by apply steps_ok_nil.
  cut (wp Transformations.notebook (kept fits_callback any_heap []) (State ∅ w [])).
  { intros [Hk _]. exact Hk. }
  unfold Transformations.notebook.
  pose proof lib_keeps_any. pose proof pop_keeps_any.
  assert (HI : any_heap (∅ : gmap nat (gmap string value))) by done.
  repeat fits_fun_step.
Qed.
